(** * ThreadJS: documentation version selector and example mods

    A shallow embedding of the JavaScript sources of the repository
    ([version.js], [example-mods/v1.0.0/spawn-kit.js],
    [example-mods/v1.0.0/player-tracker.js] with the teleport-home mod that
    follows it, and the sample mod's [entrypoints/main.js]), followed by the
    properties established about them.

    Conventions of the embedding.
    - JavaScript numbers that hold tick counts, millisecond timestamps and
      item counts are integers far below 2^53 in every run of interest; they
      are modelled as [Z] (no rounding, no NaN).
    - A host call that only has an effect on the game (chat reply, item grant,
      particle, sound, teleport, log line, persistence write) is recorded as an
      effect in the order the source performs it.  Host calls are assumed to
      return normally.
    - A reading of the clock ([Date.now()], [System.currentTimeMillis()]) is an
      argument of the handler that reads it. *)

From Stdlib Require Import ZArith QArith Qround Ascii String Sorted.
From stdpp Require Import gmap strings list fin_maps pretty.

Set Warnings "-register-all".

Open Scope string_scope.
Open Scope list_scope.
Open Scope Z_scope.

(* ===================================================================== *)
(** * String helpers                                                       *)
(* ===================================================================== *)

Module Str.

(** [s.replace(pat, repl)] with a string pattern: the first occurrence only
    ([repl] holds no [$] pattern in any use below). *)
Definition replace_first (pat repl s : string) : string :=
  match String.index 0 pat s with
  | Some k =>
      String.substring 0 k s +:+ repl +:+
      String.substring (k + String.length pat)
                       (String.length s - (k + String.length pat)) s
  | None => s
  end.

(** [s.replace(/_/g, " ")] *)
Fixpoint underscores_to_spaces (s : string) : string :=
  match s with
  | EmptyString => EmptyString
  | String c s' =>
      String (if Ascii.eqb c "_"%char then " "%char else c) (underscores_to_spaces s')
  end.

Definition lower_ascii (c : ascii) : ascii :=
  let n := nat_of_ascii c in
  if (65 <=? n)%nat && (n <=? 90)%nat then ascii_of_nat (n + 32) else c.

(** [s.toLowerCase()] on the ASCII strings command arguments consist of. *)
Fixpoint toLowerCase (s : string) : string :=
  match s with
  | EmptyString => EmptyString
  | String c s' => String (lower_ascii c) (toLowerCase s')
  end.

(** [s.replace(/\/+$/, "")]: every trailing slash is removed. *)
Fixpoint strip_trailing_slashes (s : string) : string :=
  match s with
  | EmptyString => EmptyString
  | String c s' =>
      match strip_trailing_slashes s' with
      | EmptyString => if Ascii.eqb c "/"%char then EmptyString else String c EmptyString
      | rest => String c rest
      end
  end.

(** [s.endsWith(suffix)] *)
Definition endsWith (s suffix : string) : bool :=
  let n := String.length s in
  let m := String.length suffix in
  (m <=? n)%nat && String.eqb (String.substring (n - m) m s) suffix.

End Str.

(* ===================================================================== *)
(** * JavaScript values and objects                                        *)
(* ===================================================================== *)

Module Js.

(** The values a script can hand to [JSON.stringify].  Numbers are the
    integers and NaN; [VFunction] stands for any function. *)
Inductive Value : Type :=
| VUndefined
| VNull
| VBool (b : bool)
| VNum (n : Z)
| VNaN
| VStr (s : string)
| VBigInt (n : Z)
| VFunction
| VArr (items : list Value)
| VObj (props : list (string * Value)).

(** [ToBoolean] *)
Definition truthy (v : Value) : bool :=
  match v with
  | VUndefined | VNull | VNaN => false
  | VBool b => b
  | VNum n => negb (n =? 0)
  | VStr s => negb (String.eqb s "")
  | VBigInt n => negb (n =? 0)
  | VFunction | VArr _ | VObj _ => true
  end.

(** [JSON.stringify(v)] produces text, produces [undefined] (for
    [undefined] and functions), or throws (a BigInt anywhere in [v]). *)
Inductive Serialised : Type :=
| Text (parsed : Value)
| NoText
| SerialiseError (e : string).

(** [serialise v] is the outcome of [JSON.stringify(v)]; for text it carries
    the value [JSON.parse] reads back from that text: NaN becomes [null], a
    property holding [undefined] or a function is dropped, and such an array
    element becomes [null]. *)
Fixpoint serialise (v : Value) : Serialised :=
  match v with
  | VUndefined | VFunction => NoText
  | VNull => Text VNull
  | VBool b => Text (VBool b)
  | VNum n => Text (VNum n)
  | VNaN => Text VNull
  | VStr s => Text (VStr s)
  | VBigInt _ => SerialiseError "TypeError: Do not know how to serialize a BigInt"
  | VArr items =>
      (fix go (l : list Value) (acc : list Value) : Serialised :=
         match l with
         | [] => Text (VArr (rev acc))
         | x :: l' =>
             match serialise x with
             | Text x' => go l' (x' :: acc)
             | NoText => go l' (VNull :: acc)
             | SerialiseError e => SerialiseError e
             end
         end) items []
  | VObj props =>
      (fix go (l : list (string * Value)) (acc : list (string * Value)) : Serialised :=
         match l with
         | [] => Text (VObj (rev acc))
         | (k, x) :: l' =>
             match serialise x with
             | Text x' => go l' ((k, x') :: acc)
             | NoText => go l' acc
             | SerialiseError e => SerialiseError e
             end
         end) props []
  end.

(** [JSON.parse(JSON.stringify(v))]: the value, or the error thrown.  When
    [JSON.stringify] returns [undefined], [JSON.parse] is given the text
    "undefined" and throws a SyntaxError. *)
Definition parse_stringify (v : Value) : string + Value :=
  match serialise v with
  | Text v' => inr v'
  | NoText => inl "SyntaxError: Unexpected token u in JSON at position 0"
  | SerialiseError e => inl e
  end.

(** The property names every ordinary object inherits from
    [Object.prototype]; each holds a function, except [__proto__], an accessor
    that returns the prototype object.  All of them read as truthy values. *)
Definition object_prototype_names : list string :=
  [ "constructor"; "toString"; "toLocaleString"; "valueOf";
    "hasOwnProperty"; "isPrototypeOf"; "propertyIsEnumerable";
    "__proto__"; "__defineGetter__"; "__defineSetter__";
    "__lookupGetter__"; "__lookupSetter__" ].

Definition inherited (k : string) : bool :=
  bool_decide (k ∈ object_prototype_names).

(** The result of reading [obj[k]] on an ordinary object whose own
    properties are [own]: an own property, a property found on
    [Object.prototype], or [undefined]. *)
Inductive Lookup (V : Type) : Type :=
| Own (v : V)
| Inherited
| Missing.
Arguments Own {V} v.
Arguments Inherited {V}.
Arguments Missing {V}.

Definition get {V : Type} (own : gmap string V) (k : string) : Lookup V :=
  match own !! k with
  | Some v => Own v
  | None => if inherited k then Inherited else Missing
  end.

(** The loop of [serialise] over the elements of an array, and the one
    over the properties of an object, under a name. *)
Definition serialise_items : list Value -> list Value -> Serialised :=
  fix go (l : list Value) (acc : list Value) : Serialised :=
    match l with
    | [] => Text (VArr (rev acc))
    | x :: l' =>
        match serialise x with
        | Text x' => go l' (x' :: acc)
        | NoText => go l' (VNull :: acc)
        | SerialiseError e => SerialiseError e
        end
    end.

Definition serialise_props
  : list (string * Value) -> list (string * Value) -> Serialised :=
  fix go (l : list (string * Value)) (acc : list (string * Value)) : Serialised :=
    match l with
    | [] => Text (VObj (rev acc))
    | (k, x) :: l' =>
        match serialise x with
        | Text x' => go l' ((k, x') :: acc)
        | NoText => go l' acc
        | SerialiseError e => SerialiseError e
        end
    end.

(** A value that [JSON.parse(JSON.stringify(v))] gives back as it is. *)
Definition json_clean (v : Value) : Prop := serialise v = Text v.

End Js.

(* ===================================================================== *)
(** * The host scripting API of the example mods                           *)
(* ===================================================================== *)

Module Api.

(** The calls a command handler makes into the [api] object and
    [ctx.reply], with the mapping type [M] of the mod as the value written by
    [saveData].  A coordinate is [None] when the script passes [undefined] or
    NaN.  ([api.log] is called during initialization only; its lines are the
    [log] of [Loaded].) *)
Inductive Effect (M : Type) : Type :=
| Reply (msg : string)
| GiveItem (player : string) (itemId : string) (count : Z)
| SaveData (key : string) (value : M)
| SpawnParticle (particle : string) (x y z : option Q) (count : Z)
| PlaySound (sound : string) (x y z : option Q)
| TeleportPlayer (player : string) (x y z : option Q).
Arguments Reply {M} msg.
Arguments GiveItem {M} player itemId count.
Arguments SaveData {M} key value.
Arguments SpawnParticle {M} particle x y z count.
Arguments PlaySound {M} sound x y z.
Arguments TeleportPlayer {M} player x y z.

(** [CommandContext]: [is_player] is the truthiness of [ctx.player];
    [arg_player] and [arg_action] are [ctx.args.player] and
    [ctx.args.action], [None] when the argument is absent. *)
Record CommandContext := mkContext {
  is_player : bool;
  playerName : string;
  arg_player : option string;
  arg_action : option string
}.

(** [api.getPlayer(name)], read through [.get(...)] or as fields. *)
Record PlayerInfo := mkPlayerInfo {
  x : Q;
  y : Q;
  z : Q;
  dimensionId : string;
  yaw : option Q;
  pitch : option Q
}.

(** What the surrounding runtime supplies to a handler. *)
Record Host := mkHost {
  getPlayer : string -> PlayerInfo;
  toLocaleString : Z -> string;
  toLocaleDateString : Z -> string
}.

(** A property key made from [ctx.args.player]: [undefined] converts to the
    string "undefined". *)
Definition key_of (arg : option string) : string := default "undefined" arg.

(** The loading pattern shared by the three mods:
    [try { m = JSON.parse(JSON.stringify(raw)) || {}; }
     catch (e) { api.log(tag + e); m = {}; }].
    The result is the in-memory value and the lines logged. *)
Definition load_mapping (tag : string) (raw : Js.Value) : Js.Value * list string :=
  match Js.parse_stringify raw with
  | inr v => (if Js.truthy v then v else Js.VObj [], [])
  | inl e => (Js.VObj [], [tag +:+ e])
  end.

(** The outcome of [onInitialize]: the in-memory mapping and the log. *)
Record Loaded := mkLoaded {
  mapping : Js.Value;
  log : list string
}.


(** What the loading pattern establishes for a mod that logs [first]
    before it and [last] after it, when [loadData] returned [raw]: a thrown
    error is logged after [tag] and the mapping is the empty object; a falsy
    result gives the empty object and logs nothing; a truthy result is kept. *)
Definition falls_back (init : Loaded) (raw : Js.Value) (tag first last : string) : Prop :=
  (forall e, Js.parse_stringify raw = inl e ->
     mapping init = Js.VObj [] /\ log init = [first; tag +:+ e; last])
  /\ (forall v, Js.parse_stringify raw = inr v -> Js.truthy v = false ->
       mapping init = Js.VObj [] /\ log init = [first; last])
  /\ (forall v, Js.parse_stringify raw = inr v -> Js.truthy v = true ->
       mapping init = v /\ log init = [first; last]).

(** A host for examples: every player stands at the origin of the
    overworld, and dates print as their millisecond count. *)
Definition sample_host : Host :=
  mkHost (fun _ => mkPlayerInfo 0 64 0 "minecraft:overworld" None None)
         (fun t => pretty t) (fun t => pretty t).

(** A player named [name] runs a command without arguments. *)
Definition by_player (name : string) : CommandContext :=
  mkContext true name None None.

(** The console runs a command on the player [target]. *)
Definition by_console (target : string) : CommandContext :=
  mkContext false "Server" (Some target) None.

End Api.

(* ===================================================================== *)
(** * Spawn Kit ([example-mods/v1.0.0/spawn-kit.js])                       *)
(* ===================================================================== *)

Module SpawnKit.
Import Api.

(** [received]: [Record<string, number>], player name to the time the kit
    was received.  The handlers are modelled on mappings of this declared
    type; [onInitialize] shows what the variable holds for any stored value. *)
Abbreviation Received := (gmap string Z).

(** [onInitialize] up to the registration of the commands; [loadData] is
    [api.loadData]. *)
Definition onInitialize (loadData : string -> Js.Value -> Js.Value) : Loaded :=
  let receivedRaw := loadData "kit_received" (Js.VObj []) in
  let '(received, warnings) :=
    load_mapping "[SpawnKit] Failed to parse received data: " receivedRaw in
  mkLoaded received
    (["§6[SpawnKit] Loading Spawn Kit mod..."] ++ warnings
     ++ ["§a✓ Spawn Kit mod loaded!"]).

Definition starterKit : list (string * Z) :=
  [ ("minecraft:stone_pickaxe", 1);
    ("minecraft:stone_axe", 1);
    ("minecraft:stone_shovel", 1);
    ("minecraft:stone_sword", 1);
    ("minecraft:bread", 16);
    ("minecraft:torch", 32);
    ("minecraft:oak_planks", 64) ].

(** The truthiness of [received[name]]. *)
Definition has_received (received : Received) (name : string) : bool :=
  match Js.get received name with
  | Js.Own t => negb (t =? 0)
  | Js.Inherited => true
  | Js.Missing => false
  end.

(** [new Date(received[name]).toLocaleString()] *)
Definition received_date (host : Host) (received : Received) (name : string) : string :=
  match Js.get received name with
  | Js.Own t => toLocaleString host t
  | _ => "Invalid Date"
  end.

(** The body of the [for] loop over [starterKit]. *)
Definition give_kit_item (name : string) (item : string * Z) : list (Effect Received) :=
  let itemName := Str.underscores_to_spaces (Str.replace_first "minecraft:" "" (fst item)) in
  [ GiveItem name (fst item) (snd item);
    Reply ("§a+ §f" +:+ pretty (snd item) +:+ "x §e" +:+ itemName) ].

(** [execute] of [/kit]; [now] is [Date.now()].  The assignment
    [received[playerName] = now] is reached only when the read of that
    property was falsy, so it defines or overwrites an own property. *)
Definition kit (host : Host) (ctx : CommandContext) (now : Z) (received : Received)
  : Received * list (Effect Received) :=
  if negb (is_player ctx) then
    (received, [Reply "§cOnly players can use this command!"])
  else
    let name := playerName ctx in
    if has_received received name then
      (received,
       [ Reply "§cYou've already received your starter kit!";
         Reply ("§7Received on: " +:+ received_date host received name) ])
    else
      let received' := <[name := now]> received in
      let info := getPlayer host name in
      (received',
       [Reply "§6=== Starter Kit ==="]
       ++ concat (map (give_kit_item name) starterKit)
       ++ [ SaveData "kit_received" received';
            SpawnParticle "minecraft:happy_villager"
                          (Some (x info)) (Some (y info + 1)%Q) (Some (z info)) 50;
            PlaySound "minecraft:entity.player.levelup"
                      (Some (x info)) (Some (y info)) (Some (z info));
            Reply "§a✓ Starter kit received!" ]).

(** [execute] of [/kitreset] *)
Definition kitreset (ctx : CommandContext) (received : Received)
  : Received * list (Effect Received) :=
  let targetPlayer := key_of (arg_player ctx) in
  if negb (has_received received targetPlayer) then
    (received, [Reply ("§c" +:+ targetPlayer +:+ " hasn't received a kit yet")])
  else
    let received' := delete targetPlayer received in
    (received',
     [ SaveData "kit_received" received';
       Reply ("§aReset kit status for " +:+ targetPlayer) ]).

(** The items a handler invocation granted to [name]. *)
Definition granted_to (name : string) (out : list (Effect Received)) : list (string * Z) :=
  omap (fun e => match e with
                 | GiveItem p item count =>
                     if bool_decide (p = name) then Some (item, count) else None
                 | _ => None
                 end) out.

(** A command invocation of the mod. *)
Inductive Command : Type :=
| Kit (ctx : CommandContext) (now : Z)
| KitReset (ctx : CommandContext).

Definition execute (host : Host) (c : Command) (received : Received)
  : Received * list (Effect Received) :=
  match c with
  | Kit ctx now => kit host ctx now received
  | KitReset ctx => kitreset ctx received
  end.

(** [resets name c]: [c] is a [/kitreset] aimed at [name]. *)
Definition resets (name : string) (c : Command) : Prop :=
  match c with
  | KitReset ctx => key_of (arg_player ctx) = name
  | Kit _ _ => False
  end.

(** Who holds the kit after the commands [cs], told from the commands
    alone and starting from the holders [acc]: [/kit] run by a player makes
    that player a holder, unless the name is one [Object.prototype] defines;
    a [/kitreset] aimed at a name ends its holding. *)
Fixpoint holders (cs : list Command) (acc : gset string) : gset string :=
  match cs with
  | [] => acc
  | Kit ctx _ :: cs' =>
      holders cs'
        (if is_player ctx && negb (Js.inherited (playerName ctx))
         then {[playerName ctx]} ∪ acc else acc)
  | KitReset ctx :: cs' => holders cs' (acc ∖ {[key_of (arg_player ctx)]})
  end.

(** Every [/kit] of [cs] read a clock that was not at 0. *)
Definition clocks_nonzero (cs : list Command) : Prop :=
  Forall (fun c => match c with Kit _ now => now <> 0 | KitReset _ => True end) cs.

(** A sequence of invocations, with the effects in order. *)
Fixpoint run (host : Host) (cs : list Command) (received : Received)
  : Received * list (Effect Received) :=
  match cs with
  | [] => (received, [])
  | c :: cs' =>
      let '(r1, out1) := execute host c received in
      let '(r2, out2) := run host cs' r1 in
      (r2, out1 ++ out2)
  end.

End SpawnKit.

(* ===================================================================== *)
(** * Player Tracker ([example-mods/v1.0.0/player-tracker.js])             *)
(* ===================================================================== *)

Module PlayerTracker.
Import Api.

(** [PlayerActivity]; [None] is [null]. *)
Record PlayerActivity := mkActivity {
  commandCount : Z;
  lastCommand : option string;
  lastActive : option Z;
  firstSeen : Z
}.

(** [activity]: [Record<string, PlayerActivity>]. *)
Abbreviation Activity := (gmap string PlayerActivity).

(** [CommandEvent], the fields the listener reads. *)
Record CommandEvent := mkEvent {
  ev_playerName : string;
  ev_command : string
}.

Definition onInitialize (loadData : string -> Js.Value -> Js.Value) : Loaded :=
  let activityRaw := loadData "player_activity" (Js.VObj []) in
  let '(activity, warnings) :=
    load_mapping "[PlayerTracker] Failed to parse activity: " activityRaw in
  mkLoaded activity
    (["§6[PlayerTracker] Loading Player Tracker mod..."] ++ warnings
     ++ ["§a✓ Player Tracker mod loaded!"]).

(** The listener given to [api.onCommandExecute]; [t_first] and [t_last] are
    the two readings of [Date.now()].  A record and a built-in found on
    [Object.prototype] are both truthy, so a record is created only when the
    read is [undefined].  The three writes that follow go to whatever
    [activity[playerName]] then is: the record of the mapping, or the
    inherited built-in object, which is not part of the mapping (properties
    added to built-in objects are not tracked). *)
Definition onCommandExecute (event : CommandEvent) (t_first t_last : Z)
    (activity : Activity) : Activity * list (Effect Activity) :=
  let name := ev_playerName event in
  let activity1 :=
    match Js.get activity name with
    | Js.Missing => <[name := mkActivity 0 None None t_first]> activity
    | _ => activity
    end in
  let activity2 :=
    match Js.get activity1 name with
    | Js.Own r =>
        <[name := mkActivity (commandCount r + 1) (Some (ev_command event))
                             (Some t_last) (firstSeen r)]> activity1
    | _ => activity1
    end in
  (activity2, [SaveData "player_activity" activity2]).




(** Insertion that keeps a list sorted by decreasing count and places an
    entry after those of equal count ([Array.prototype.sort] is stable). *)
Fixpoint insert_by_count (e : string * Z) (l : list (string * Z)) : list (string * Z) :=
  match l with
  | [] => [e]
  | e' :: l' =>
      if bool_decide (snd e' < snd e) then e :: l else e' :: insert_by_count e l'
  end.

Definition sort_by_count (l : list (string * Z)) : list (string * Z) :=
  fold_left (fun acc e => insert_by_count e acc) l [].

(** [execute] of [/leaderboard].  The [for (let player in activity)] loop
    visits the keys in the order of [map_to_list]; the engine visits them in
    insertion order, so players with equal counts may be listed in another
    order than here. *)
Definition leaderboard (activity : Activity) : Activity * list (Effect Activity) :=
  let sorted :=
    sort_by_count (map (fun kv => (fst kv, commandCount (snd kv))) (map_to_list activity)) in
  (activity,
   [Reply "§6=== Most Active Players ==="]
   ++ imap (fun i e =>
              Reply ("§e" +:+ pretty (Z.of_nat i + 1) +:+ ". §f" +:+ fst e +:+ " §7- §f"
                     +:+ pretty (snd e) +:+ " commands"))
           (take 5 sorted)).



(** Order of the leaderboard: by decreasing command count. *)
Definition by_count (a b : string * Z) : Prop := snd b <= snd a.

End PlayerTracker.

(* ===================================================================== *)
(** * Teleport Home (second mod of [player-tracker.js])                    *)
(* ===================================================================== *)

Module TeleportHome.
Import Api.

(** The object literal stored by [/home set]. *)
Record Home := mkHome {
  hx : Q;
  hy : Q;
  hz : Q;
  dimension : string;
  hyaw : Q;
  hpitch : Q
}.

(** [homes]: its own properties, and the record installed as its prototype
    when a home was assigned under the name [__proto__] (the assignment runs
    the inherited setter instead of defining a property); [None] is the
    initial prototype, [Object.prototype]. *)
Record Homes := mkHomes {
  own : gmap string Home;
  proto : option Home
}.

Definition onInitialize (loadData : string -> Js.Value -> Js.Value) : Loaded :=
  let homesRaw := loadData "homes" (Js.VObj []) in
  let '(homes, warnings) :=
    load_mapping "[TeleportHome] Failed to parse homes: " homesRaw in
  mkLoaded homes
    (["§6[TeleportHome] Loading Teleport Home mod..."] ++ warnings
     ++ ["§a✓ Teleport Home mod loaded!"]).

(** What [homes[k]] evaluates to. *)
Inductive Found : Type :=
| FHome (h : Home)
| FNum (q : Q)
| FStr (s : string)
| FBuiltin
| FMissing.

Definition lookup_home (homes : Homes) (k : string) : Found :=
  match own homes !! k with
  | Some h => FHome h
  | None =>
      match proto homes with
      | Some p =>
          if String.eqb k "x" then FNum (hx p)
          else if String.eqb k "y" then FNum (hy p)
          else if String.eqb k "z" then FNum (hz p)
          else if String.eqb k "dimension" then FStr (dimension p)
          else if String.eqb k "yaw" then FNum (hyaw p)
          else if String.eqb k "pitch" then FNum (hpitch p)
          else if String.eqb k "__proto__" then FHome p
          else if Js.inherited k then FBuiltin
          else FMissing
      | None => if Js.inherited k then FBuiltin else FMissing
      end
  end.

Definition found_truthy (f : Found) : bool :=
  match f with
  | FHome _ | FBuiltin => true
  | FNum q => negb (Qeq_bool q 0)
  | FStr s => negb (String.eqb s "")
  | FMissing => false
  end.

(** [homes[k] = h] *)
Definition assign_home (k : string) (h : Home) (homes : Homes) : Homes :=
  match own homes !! k with
  | Some _ => mkHomes (<[k := h]> (own homes)) (proto homes)
  | None =>
      if String.eqb k "__proto__" then mkHomes (own homes) (Some h)
      else mkHomes (<[k := h]> (own homes)) (proto homes)
  end.

(** [delete homes[k]] removes an own property only. *)
Definition delete_home (k : string) (homes : Homes) : Homes :=
  mkHomes (delete k (own homes)) (proto homes).

(** [home.x] and the like: a number when [home] is a record. *)
Definition field (sel : Home -> Q) (f : Found) : option Q :=
  match f with
  | FHome h => Some (sel h)
  | _ => None
  end.

(** [Math.floor(v)] inside a template literal. *)
Definition show_floor (v : option Q) : string :=
  match v with
  | Some q => pretty (Qfloor q)
  | None => "NaN"
  end.

(** [home.dimension] inside a template literal. *)
Definition show_dimension (f : Found) : string :=
  match f with
  | FHome h => dimension h
  | _ => "undefined"
  end.

Definition plus_one (v : option Q) : option Q :=
  match v with
  | Some q => Some (q + 1)%Q
  | None => None
  end.

(** [ctx.args.action ? ctx.args.action.toLowerCase() : "tp"].  Lowering
    the ASCII letters only decides the three comparisons below as the full
    conversion does: no other character lowers to a letter of "set", "delete"
    or "list". *)
Definition action_of (ctx : CommandContext) : string :=
  match arg_action ctx with
  | Some a => if String.eqb a "" then "tp" else Str.toLowerCase a
  | None => "tp"
  end.

(** [execute] of [/home].  [saveData] serialises the own properties. *)
Definition home (host : Host) (ctx : CommandContext) (homes : Homes)
  : Homes * list (Effect (gmap string Home)) :=
  if negb (is_player ctx) then
    (homes, [Reply "§cOnly players can use this command!"])
  else
    let name := playerName ctx in
    let action := action_of ctx in
    if String.eqb action "set" then
      let info := getPlayer host name in
      let h := mkHome (x info) (y info) (z info) (dimensionId info)
                      (default 0%Q (yaw info)) (default 0%Q (pitch info)) in
      let homes' := assign_home name h homes in
      (homes',
       [ SaveData "homes" (own homes');
         Reply ("§aHome set at §f" +:+ pretty (Qfloor (x info)) +:+ ", "
                +:+ pretty (Qfloor (y info)) +:+ ", " +:+ pretty (Qfloor (z info)));
         SpawnParticle "minecraft:happy_villager"
                       (Some (x info)) (Some (y info + 1)%Q) (Some (z info)) 20;
         PlaySound "minecraft:block.note_block.pling"
                   (Some (x info)) (Some (y info)) (Some (z info)) ])
    else if String.eqb action "delete" then
      if negb (found_truthy (lookup_home homes name)) then
        (homes, [Reply "§cYou don't have a home set!"])
      else
        let homes' := delete_home name homes in
        (homes', [SaveData "homes" (own homes'); Reply "§aHome deleted!"])
    else if String.eqb action "list" then
      if negb (found_truthy (lookup_home homes name)) then
        (homes, [Reply "§cYou don't have a home set!"])
      else
        let h := lookup_home homes name in
        (homes,
         [ Reply "§6=== Your Home ===";
           Reply ("§eLocation: §f" +:+ show_floor (field hx h) +:+ ", "
                  +:+ show_floor (field hy h) +:+ ", " +:+ show_floor (field hz h));
           Reply ("§eDimension: §f" +:+ show_dimension h) ])
    else
      if negb (found_truthy (lookup_home homes name)) then
        (homes, [Reply "§cYou don't have a home set! Use §e/home set"])
      else
        let h := lookup_home homes name in
        let current := getPlayer host name in
        (homes,
         [ SpawnParticle "minecraft:portal"
                         (Some (x current)) (Some (y current + 1)%Q) (Some (z current)) 50;
           TeleportPlayer name (field hx h) (field hy h) (field hz h);
           SpawnParticle "minecraft:portal"
                         (field hx h) (plus_one (field hy h)) (field hz h) 50;
           PlaySound "minecraft:entity.enderman.teleport"
                     (field hx h) (field hy h) (field hz h);
           Reply "§aTeleported home!" ]).

(** A sequence of [/home] invocations, each with the host as it is then. *)
Fixpoint run (cs : list (Host * CommandContext)) (homes : Homes) : Homes :=
  match cs with
  | [] => homes
  | (host, ctx) :: cs' => run cs' (fst (home host ctx homes))
  end.

End TeleportHome.

(* ===================================================================== *)
(** * The sample mod ([entrypoints/main.js])                              *)
(* ===================================================================== *)

Module SampleMod.

(** ** Scheduled actions

    [scheduleTask(delayTicks, action)] receives a closure.  A closure is
    modelled by what running it does to the mod: it produces an observable
    effect (named by [label]), may itself call [scheduleTask] any number of
    times (the pairs of [spawns], in call order), and finally either returns
    or throws (the thrown value converted with [String(e)]). *)
Inductive Action : Type :=
| Act (label : string) (spawns : list (Z * Action)) (throws : option string).

(** The object literal [{ tickTarget: ..., action: ... }].  Two literals
    evaluated at different times are different objects even when their fields
    agree: [task_id] is the identity of the object (allocation order). *)
Record Task := mkTask {
  task_id : nat;
  tickTarget : Z;
  action : Action
}.

(** A position of whole blocks ([BlockPos]). *)
Record BlockPos := mkBlockPos { bx : Z; by_ : Z; bz : Z }.

(** The value stored by the join handler in [playerData]. *)
Record JoinRecord := mkJoinRecord { jr_name : string; joinedAt : Z }.

(** The mod state: the top-level [var]s of section 3 of the file
    ([random] is a source of numbers and appears as an argument where it is
    drawn from).  [next_obj] numbers the task objects allocated so far. *)
Record ModState := mkModState {
  tickCounter : Z;
  playerData : gmap string JoinRecord;
  scheduledTasks : list Task;
  homeData : gmap string BlockPos;
  warpData : gmap string BlockPos;
  dailyClaims : gmap string Z;
  next_obj : nat
}.

Definition initial_state : ModState :=
  mkModState 0 ∅ [] ∅ ∅ ∅ 0%nat.

Definition DAILY_COOLDOWN_MS : Z := 5 * 60 * 1000.

Definition set_tickCounter (v : Z) (st : ModState) : ModState :=
  mkModState v (playerData st) (scheduledTasks st) (homeData st)
             (warpData st) (dailyClaims st) (next_obj st).

Definition set_playerData (v : gmap string JoinRecord) (st : ModState) : ModState :=
  mkModState (tickCounter st) v (scheduledTasks st) (homeData st)
             (warpData st) (dailyClaims st) (next_obj st).

Definition set_scheduledTasks (v : list Task) (st : ModState) : ModState :=
  mkModState (tickCounter st) (playerData st) v (homeData st)
             (warpData st) (dailyClaims st) (next_obj st).

Definition set_homeData (v : gmap string BlockPos) (st : ModState) : ModState :=
  mkModState (tickCounter st) (playerData st) (scheduledTasks st) v
             (warpData st) (dailyClaims st) (next_obj st).

Definition set_warpData (v : gmap string BlockPos) (st : ModState) : ModState :=
  mkModState (tickCounter st) (playerData st) (scheduledTasks st) (homeData st)
             v (dailyClaims st) (next_obj st).

Definition set_dailyClaims (v : gmap string Z) (st : ModState) : ModState :=
  mkModState (tickCounter st) (playerData st) (scheduledTasks st) (homeData st)
             (warpData st) v (next_obj st).

(** [scheduleTask]: [scheduledTasks.add({ tickTarget: tickCounter +
    delayTicks, action: action })].  [ArrayList.add] appends. *)
Definition scheduleTask (delayTicks : Z) (a : Action) (st : ModState) : ModState :=
  mkModState (tickCounter st) (playerData st)
             (scheduledTasks st ++ [mkTask (next_obj st) (tickCounter st + delayTicks) a])
             (homeData st) (warpData st) (dailyClaims st) (S (next_obj st)).

(** Where a particle or an explosion is placed: at a player's position
    raised by [dy], at given coordinates, or on the [k]-th of [n] points of
    the ring of radius 2 around a player (the [/js particles] command). *)
Inductive Where : Type :=
| AtPlayer (uuid : string) (dy : Q)
| AtPos (x y z : Q)
| OnRing (uuid : string) (k n : nat).

(** What the mod does to the game and to its log.  A [Text] is recorded as
    the concatenation of its literal parts; colours and styles are dropped. *)
Inductive Effect : Type :=
| LogInfo (msg : string)
| LogWarn (msg : string)
| ActionRan (task : nat) (label : string)
| PlayerMessage (uuid : string) (text : string)
| ActionBar (uuid : string) (text : string)
| SendFeedback (text : string)
| SendError (text : string)
| GiveItemStack (uuid : string) (item : string) (count : Z)
| PlaySound (sound : string) (uuid : string)
| SpawnParticles (particle : string) (at_ : Where) (count : Z)
| TeleportPlayer (uuid : string) (x y z : Q)
| CreateExplosion (at_ : Where)
| SetHealthToMax (uuid : string)
| SetFoodLevel (uuid : string) (level : Z)
| SetFireTicks (uuid : string) (ticks : Z)
| ChangeGameMode (uuid : string) (mode : string)
| SetStackCount (uuid : string) (amount : Z)
| SetTimeOfDay (ticks : Z)
| SetWeather (clearDuration rainDuration : Z) (raining thundering : bool)
| AddStatusEffect (uuid : string) (effect : string) (duration amplifier : Z)
| ClearStatusEffects (uuid : string).

(** [task.action()]: the body runs, its [scheduleTask] calls append to the
    very list the sweep is scanning, and the call returns or throws. *)
Definition call_action (t : Task) (st : ModState)
  : ModState * list Effect * option string :=
  match action t with
  | Act label spawns throws =>
      (fold_left (fun s da => scheduleTask (fst da) (snd da) s) spawns st,
       [ActionRan (task_id t) label],
       throws)
  end.

(** [try { task.action(); } catch (e) { LOGGER.warn("Scheduled task error:
    {}", String(e)); }] *)
Definition run_guarded (t : Task) (st : ModState) : ModState * list Effect :=
  let '(st1, out, thrown) := call_action t st in
  (st1,
   out ++ match thrown with
          | Some e => [LogWarn ("Scheduled task error: " +:+ e)]
          | None => []
          end).

(** The [while (i < scheduledTasks.size())] loop of [onEndTick].  One unit of
    [fuel] pays for one evaluation of the loop condition; [None] means the
    fuel ran out before the condition became false.  [scheduledTasks.remove(i)]
    with a number argument removes the element at that index. *)
Fixpoint sweep (fuel : nat) (i : nat) (st : ModState)
  : option (ModState * list Effect) :=
  match fuel with
  | O => None
  | S fuel' =>
      match scheduledTasks st !! i with
      | None => Some (st, [])
      | Some task =>
          if bool_decide (tickTarget task ≤ tickCounter st)
          then
            let '(st1, out) := run_guarded task st in
            let st2 := set_scheduledTasks (delete i (scheduledTasks st1)) st1 in
            match sweep fuel' i st2 with
            | Some (st3, out') => Some (st3, out ++ out')
            | None => None
            end
          else sweep fuel' (S i) st
      end
  end.

(** The number of loop iterations a task can cause: one for itself and, if
    it runs, those of the tasks its action schedules. *)
Fixpoint action_weight (a : Action) : nat :=
  match a with
  | Act _ spawns _ =>
      S ((fix spawns_weight (l : list (Z * Action)) : nat :=
            match l with
            | [] => O
            | (_, a') :: l' => (action_weight a' + spawns_weight l')%nat
            end) spawns)
  end.

Definition tasks_weight (l : list Task) : nat :=
  list_sum (map (fun t => action_weight (action t)) l).

(** Fuel that is enough for the sweep of one tick (see [sweep_total]). *)
Definition sweep_fuel (st : ModState) : nat := S (tasks_weight (scheduledTasks st)).

(** ** The host: players, command sources, the server *)

(** [player.getMainHandStack()] when it is not empty. *)
Record HeldStack := mkHeldStack {
  hs_name : string;
  hs_count : Z;
  hs_maxCount : Z;
  hs_damaged : bool;
  hs_maxDamage : Z;
  hs_damage : Z
}.

Record Player := mkPlayer {
  uuid : string;
  pname : string;
  px : Q;
  py : Q;
  pz : Q;
  mainHand : option HeldStack
}.

(** [ctx.getSource()]: [src_player] is [getPlayer()], [None] for [null]
    (the console, a command block). *)
Record Source := mkSource {
  src_name : string;
  src_player : option Player
}.

(** The server and the overworld as the handlers read them, and the
    conversions the script engine and the game supply. *)
Record Server := mkServer {
  online : list Player;
  isAir : Z -> Z -> Z -> bool;
  topY : Z;
  bottomY : Z;
  timeOfDay : Z;
  gamemode_known : string -> bool;
  effect_known : string -> bool;
  parseInt : string -> option Z;
  show_number : Q -> string
}.

(** [server.getPlayerManager().getPlayer(name)] *)
Definition find_player (server : Server) (name : string) : option Player :=
  List.find (fun p => bool_decide (pname p = name)) (online server).

(** [broadcast(server, text)] sends to every online player. *)
Definition broadcast (server : Server) (text : string) : list Effect :=
  map (fun p => PlayerMessage (uuid p) text) (online server).

(** [formatDurationMs].  [Math] is [java.lang.Math] in this file; on the
    integers met here [Math.floor(a / b)] is [a / b] rounded down. *)
Definition formatDurationMs (ms : Z) : string :=
  let totalSeconds := Z.max 0 (ms / 1000) in
  let minutes := totalSeconds / 60 in
  let seconds := totalSeconds `rem` 60 in
  if bool_decide (minutes > 0)
  then pretty minutes +:+ "m " +:+ pretty seconds +:+ "s"
  else pretty seconds +:+ "s".

Definition welcomeMessages : list string :=
  [ "Welcome to the server, {name}!";
    "Look who's here — {name}!";
    "A wild {name} appeared!";
    "{name} has joined the adventure!";
    "Everyone welcome {name}!" ].

(** ** Event handlers *)

(** The two closures the join handler schedules; each wraps its body in
    [try { ... } catch (e) {}], so neither throws, and neither schedules. *)
Definition join_particles (p : Player) : Action :=
  Act ("spawnParticles TOTEM_OF_UNDYING at " +:+ uuid p) [] None.

Definition join_tip (p : Player) : Action :=
  Act ("sendMessage tip to " +:+ uuid p) [] None.

(** [onPlayReady]; [now] is [System.currentTimeMillis()] and [draw] is
    [random.nextInt(welcomeMessages.length)]. *)
Definition onPlayReady (p : Player) (server : Server) (now : Z) (draw : nat)
    (st : ModState) : ModState * list Effect :=
  let st1 := set_playerData (<[uuid p := mkJoinRecord (pname p) now]> (playerData st)) st in
  let template := default "" (welcomeMessages !! draw) in
  let msg := Str.replace_first "{name}" (pname p) template in
  let st2 := scheduleTask 20 (join_particles p) st1 in
  let st3 := scheduleTask 100 (join_tip p) st2 in
  (st3,
   broadcast server ("✦ " +:+ msg)
   ++ [PlaySound "ENTITY_PLAYER_LEVELUP" (uuid p);
       LogInfo (pname p +:+ " joined")]).

(** [onPlayDisconnect] *)
Definition onPlayDisconnect (p : Player) (now : Z) (st : ModState)
  : ModState * list Effect :=
  (set_playerData (delete (uuid p) (playerData st)) st,
   match playerData st !! uuid p with
   | Some data =>
       [LogInfo (jr_name data +:+ " left after "
                 +:+ pretty ((now - joinedAt data) / 60000) +:+ " min")]
   | None => []
   end).

(** [onEndTick]: the counter is incremented, the list is swept, and every
    1200th tick each online player gets END_ROD particles. *)
Definition onEndTick (fuel : nat) (server : Server) (st : ModState)
  : option (ModState * list Effect) :=
  let st1 := set_tickCounter (tickCounter st + 1) st in
  match sweep fuel O st1 with
  | None => None
  | Some (st2, out) =>
      Some (st2,
            out ++
            if bool_decide (tickCounter st2 `rem` 1200 = 0)
            then map (fun p => SpawnParticles "END_ROD" (AtPlayer (uuid p) 2) 5)
                     (online server)
            else [])
  end.

(** ** Command handlers

    Every handler registered by the [CommandRegistrationCallback] returns the
    integer Brigadier receives, the new mod state and the effects performed. *)
Inductive Completion : Type :=
| Returned (v : Z)
| Threw (e : string).

Record Outcome := mkOutcome {
  result : Completion;
  state : ModState;
  effects : list Effect
}.

Definition ret (v : Z) (st : ModState) (out : list Effect) : Outcome :=
  mkOutcome (Returned v) st out.

Definition helpLines : list string :=
  [ "§6══ ThreadJS Sample Commands ══";
    "§e/js greet <player>§7 — Greet a player (tab-complete!)";
    "§e/js roll [sides]§7 — Roll dice (default d20)";
    "§e/js playtime§7 — Session playtime";
    "§e/js kit§7 — Get a diamond starter kit";
    "§e/js tp <x> <y> <z>§7 — Teleport";
    "§e/js boom§7 — Cosmetic explosion";
    "§e/js particles§7 — Particle ring";
    "§e/js hand§7 — Inspect held item";
    "§e/js top§7 — Teleport to surface";
    "§e/js heal [player]§7 — Restore health & hunger";
    "§e/js gamemode <mode>§7 — Switch gamemode (tab-complete!)";
    "§e/js stack <n>§7 — Set held item count";
    "§e/js near§7 — List nearby players + distance";
    "§e/js time set <preset>§7 — Set world time";
    "§e/js time add <ticks>§7 — Advance world time";
    "§e/js actionbar <text>§7 — Action bar message";
    "§e/js home set|go|info|clear§7 — Personal home";
    "§e/js warp set|go|list|remove§7 — Global warps";
    "§e/js effect add|clear§7 — Potion effects";
    "§e/js weather set <mode>§7 — Set weather";
    "§e/js daily§7 — Timed reward";
    "§6── Standalone Commands ──";
    "§e/kit§7 — Get an iron starter kit (no prefix needed!)" ].

(** [/js help] *)
Definition js_help (st : ModState) : Outcome :=
  ret 1 st (map SendFeedback helpLines).

(** [/js greet <player>] *)
Definition js_greet (src : Source) (server : Server) (targetName : string)
    (st : ModState) : Outcome :=
  match find_player server targetName with
  | Some target =>
      ret 1 st
        [PlayerMessage (uuid target) ("👋 " +:+ src_name src +:+ " waves at you!");
         SendFeedback ("Greeted " +:+ targetName +:+ "!")]
  | None =>
      ret 1 st [SendError ("Player not found: " +:+ targetName)]
  end.

(** [/js roll [sides]]: [sides] is [None] for the default d20; [draw] is
    [random.nextInt(sides)]. *)
Definition js_roll (src : Source) (server : Server) (sides : option Z) (draw : Z)
    (st : ModState) : Outcome :=
  let res := draw + 1 in
  ret res st
    (broadcast server
       ("🎲 " +:+ src_name src +:+ " rolled " +:+ pretty res +:+
        match sides with
        | Some n => " (d" +:+ pretty n +:+ ")"
        | None => " (d20)"
        end)).

(** [/js playtime] *)
Definition js_playtime (src : Source) (now : Z) (st : ModState) : Outcome :=
  match src_player src with
  | None => ret 0 st [SendError "Players only!"]
  | Some player =>
      match playerData st !! uuid player with
      | Some data =>
          let elapsed := now - joinedAt data in
          let mins := elapsed / 60000 in
          let secs := (elapsed `rem` 60000) / 1000 in
          ret 1 st
            [SendFeedback ("⏱ Online for " +:+ pretty mins +:+ "m "
                           +:+ pretty secs +:+ "s")]
      | None => ret 1 st []
      end
  end.

(** [/js kit] (diamond tier) *)
Definition js_kit (src : Source) (st : ModState) : Outcome :=
  match src_player src with
  | None => ret 0 st []
  | Some player =>
      ret 1 st
        [GiveItemStack (uuid player) "DIAMOND_SWORD" 1;
         GiveItemStack (uuid player) "DIAMOND_PICKAXE" 1;
         GiveItemStack (uuid player) "COOKED_BEEF" 32;
         GiveItemStack (uuid player) "TORCH" 64;
         GiveItemStack (uuid player) "OAK_PLANKS" 64;
         PlaySound "ENTITY_ITEM_PICKUP" (uuid player);
         SendFeedback "🎒 Starter kit received!"]
  end.

(** [/js tp <x> <y> <z>] *)
Definition js_tp (src : Source) (server : Server) (x y z : Q) (st : ModState)
  : Outcome :=
  match src_player src with
  | None => ret 0 st []
  | Some player =>
      ret 1 st
        [TeleportPlayer (uuid player) x y z;
         SpawnParticles "PORTAL" (AtPos x (y + 1)%Q z) 50;
         SendFeedback ("✈ Teleported to " +:+ show_number server x +:+ ", "
                       +:+ show_number server y +:+ ", " +:+ show_number server z)]
  end.

(** [/js boom] *)
Definition js_boom (src : Source) (st : ModState) : Outcome :=
  match src_player src with
  | None => ret 0 st []
  | Some player =>
      ret 1 st
        [CreateExplosion (AtPlayer (uuid player) 0);
         SpawnParticles "EXPLOSION_EMITTER" (AtPlayer (uuid player) 1) 3;
         SendFeedback "💥 Boom!"]
  end.

Definition particleTypes : list string :=
  ["HEART"; "NOTE"; "FLAME"; "END_ROD"; "TOTEM_OF_UNDYING"].

(** [/js particles] *)
Definition js_particles (src : Source) (st : ModState) : Outcome :=
  match src_player src with
  | None => ret 0 st []
  | Some player =>
      ret 1 st
        (imap (fun i ty => SpawnParticles ty
                             (OnRing (uuid player) i (length particleTypes)) 10)
              particleTypes
         ++ [SendFeedback "✨ Particles spawned!"])
  end.

(** [/js hand] *)
Definition js_hand (src : Source) (st : ModState) : Outcome :=
  match src_player src with
  | None => ret 0 st []
  | Some player =>
      match mainHand player with
      | None => ret 1 st [SendFeedback "Your hand is empty!"]
      | Some stack =>
          ret 1 st
            [SendFeedback
               ("🔍 Holding: " +:+ hs_name stack +:+ " x" +:+ pretty (hs_count stack)
                +:+ "/" +:+ pretty (hs_maxCount stack) +:+
                if hs_damaged stack
                then " [" +:+ pretty (hs_maxDamage stack - hs_damage stack) +:+ "/"
                     +:+ pretty (hs_maxDamage stack) +:+ " dur]"
                else "")]
      end
  end.

(** [x | 0]: conversion to a signed 32-bit integer. *)
Definition to_int32 (n : Z) : Z := (n + 2 ^ 31) `mod` 2 ^ 32 - 2 ^ 31.

(** [java.lang.Math.round(d)] *)
Definition java_round (d : Q) : Z := Qfloor (d + (1 # 2))%Q.

(** The [for (var y = topY; y > world.getBottomY(); y--)] loop of [/js top]:
    [n] is the number of values of [y] left to visit; the result is the new
    [topY]. *)
Fixpoint scan_down (server : Server) (bxz : Z * Z) (n : nat) (y : Z) (topY0 : Z) : Z :=
  match n with
  | O => topY0
  | S n' =>
      if negb (isAir server (fst bxz) y (snd bxz)) then y + 1
      else scan_down server bxz n' (y - 1) topY0
  end.

(** [/js top] *)
Definition js_top (src : Source) (server : Server) (st : ModState) : Outcome :=
  match src_player src with
  | None => ret 0 st []
  | Some player =>
      let x := to_int32 (java_round (px player)) in
      let z := to_int32 (java_round (pz player)) in
      let topY0 := topY server - 1 in
      let topY1 := scan_down server (x, z) (Z.to_nat (topY0 - bottomY server)) topY0 topY0 in
      ret 1 st
        [TeleportPlayer (uuid player) (inject_Z x + (1 # 2))%Q (inject_Z topY1)
                        (inject_Z z + (1 # 2))%Q;
         SendFeedback ("⬆ Teleported to surface (y=" +:+ pretty topY1 +:+ ")")]
  end.

Definition heal_effects (p : Player) : list Effect :=
  [SetHealthToMax (uuid p);
   SetFoodLevel (uuid p) 20;
   SetFireTicks (uuid p) 0;
   SpawnParticles "HEART" (AtPlayer (uuid p) 2) 10].

(** [/js heal <target>] *)
Definition js_heal_target (server : Server) (targetName : string) (st : ModState)
  : Outcome :=
  match find_player server targetName with
  | None => ret 0 st [SendError ("Player not found: " +:+ targetName)]
  | Some target =>
      ret 1 st (heal_effects target
                ++ [SendFeedback ("❤ Healed " +:+ targetName +:+ "!")])
  end.

(** [/js heal] *)
Definition js_heal (src : Source) (st : ModState) : Outcome :=
  match src_player src with
  | None => ret 0 st []
  | Some player => ret 1 st (heal_effects player ++ [SendFeedback "❤ Healed!"])
  end.

(** [/js gamemode <mode>]; [GameMode.byName(modeName, null)] is [null] for
    a name the game does not know. *)
Definition js_gamemode (src : Source) (server : Server) (modeName : string)
    (st : ModState) : Outcome :=
  match src_player src with
  | None => ret 0 st []
  | Some player =>
      if gamemode_known server modeName then
        ret 1 st [ChangeGameMode (uuid player) modeName;
                  SendFeedback ("🎮 Game mode set to " +:+ modeName)]
      else ret 0 st [SendError ("Unknown mode: " +:+ modeName)]
  end.

(** [/js stack <amount>] *)
Definition js_stack (src : Source) (amount : Z) (st : ModState) : Outcome :=
  match src_player src with
  | None => ret 0 st []
  | Some player =>
      match mainHand player with
      | None => ret 0 st [SendError "Hold an item first!"]
      | Some stack =>
          ret 1 st [SetStackCount (uuid player) amount;
                    SendFeedback ("📦 Set stack to " +:+ pretty amount +:+ " × "
                                  +:+ hs_name stack)]
      end
  end.

(** The square of the distance between two players. *)
Definition dist2 (a b : Player) : Q :=
  ((px b - px a) * (px b - px a) + (py b - py a) * (py b - py a)
   + (pz b - pz a) * (pz b - pz a))%Q.

(** [Math.round(Math.sqrt(d2))] for a rational [d2 >= 0]: the integer [n]
    with [(2n - 1)^2 <= 4 d2 < (2n + 1)^2]. *)
Definition round_sqrt (d2 : Q) : Z := (Z.sqrt (Qfloor (4 * d2)%Q) + 1) / 2.

(** Stable insertion by increasing distance. *)
Fixpoint insert_by_dist (e : string * Q) (l : list (string * Q)) : list (string * Q) :=
  match l with
  | [] => [e]
  | e' :: l' =>
      if Qle_bool (snd e') (snd e) then e' :: insert_by_dist e l' else e :: l
  end.

(** [/js near] *)
Definition js_near (src : Source) (server : Server) (st : ModState) : Outcome :=
  match src_player src with
  | None => ret 0 st []
  | Some player =>
      let others :=
        List.filter (fun o => negb (String.eqb (uuid o) (uuid player))) (online server) in
      let nearby :=
        fold_left (fun acc e => insert_by_dist e acc)
                  (map (fun o => (pname o, dist2 player o)) others) [] in
      match nearby with
      | [] => ret 1 st [SendFeedback "No other players online!"]
      | _ =>
          ret 1 st
            (SendFeedback "📡 Nearby players:"
             :: map (fun e => SendFeedback ("  " +:+ fst e +:+ " — "
                                            +:+ pretty (round_sqrt (snd e)) +:+ "m away"))
                    (take 10 nearby))
      end
  end.

(** The object literal [timeMap] of [/js time set]. *)
Definition timeMap : gmap string Z :=
  <["day" := 1000]> (<["noon" := 6000]> (<["night" := 13000]> (<["midnight" := 18000]> ∅))).

(** [/js time set <value>].  [timeMap[value]] finds a built-in for a name
    inherited from [Object.prototype]; it is not [undefined], and passing it
    where the game expects a number makes the call throw. *)
Definition js_time_set (server : Server) (value : string) (st : ModState) : Outcome :=
  let finish (ticks : Z) :=
    ret 1 st [SetTimeOfDay ticks;
              SendFeedback ("🕐 Time set to " +:+ value +:+ " (" +:+ pretty ticks
                            +:+ " ticks)")] in
  match Js.get timeMap value with
  | Js.Own ticks => finish ticks
  | Js.Inherited => mkOutcome (Threw "TypeError") st []
  | Js.Missing =>
      match parseInt server value with
      | Some ticks => finish ticks
      | None => ret 0 st [SendError ("Unknown time: " +:+ value)]
      end
  end.

(** [/js time add <ticks>] *)
Definition js_time_add (server : Server) (ticks : Z) (st : ModState) : Outcome :=
  let newTime := timeOfDay server + ticks in
  ret 1 st [SetTimeOfDay newTime;
            SendFeedback ("🕐 Added " +:+ pretty ticks +:+ " ticks (now "
                          +:+ pretty newTime +:+ ")")].

(** [/js actionbar <text>] *)
Definition js_actionbar (src : Source) (text : string) (st : ModState) : Outcome :=
  match src_player src with
  | None => ret 0 st []
  | Some player => ret 1 st [ActionBar (uuid player) text]
  end.

(** [new BlockPos(Math.floor(x), Math.floor(y), Math.floor(z))] *)
Definition block_of (p : Player) : BlockPos :=
  mkBlockPos (Qfloor (px p)) (Qfloor (py p)) (Qfloor (pz p)).

Definition show_pos (pos : BlockPos) : string :=
  pretty (bx pos) +:+ ", " +:+ pretty (by_ pos) +:+ ", " +:+ pretty (bz pos).

Definition teleport_to_block (p : Player) (pos : BlockPos) : Effect :=
  TeleportPlayer (uuid p) (inject_Z (bx pos) + (1 # 2))%Q (inject_Z (by_ pos))
                 (inject_Z (bz pos) + (1 # 2))%Q.

(** [/js home set] *)
Definition js_home_set (src : Source) (st : ModState) : Outcome :=
  match src_player src with
  | None => ret 0 st []
  | Some player =>
      let pos := block_of player in
      ret 1 (set_homeData (<[uuid player := pos]> (homeData st)) st)
        [SendFeedback ("🏠 Home set at " +:+ show_pos pos)]
  end.

(** [/js home go] *)
Definition js_home_go (src : Source) (st : ModState) : Outcome :=
  match src_player src with
  | None => ret 0 st []
  | Some player =>
      match homeData st !! uuid player with
      | None => ret 0 st [SendError "No home set. Use /js home set first."]
      | Some pos =>
          ret 1 st [teleport_to_block player pos; SendFeedback "🏠 Teleported home!"]
      end
  end.

(** [/js home info] *)
Definition js_home_info (src : Source) (st : ModState) : Outcome :=
  match src_player src with
  | None => ret 0 st []
  | Some player =>
      match homeData st !! uuid player with
      | None => ret 0 st [SendError "No home set."]
      | Some pos => ret 1 st [SendFeedback ("🏠 Home: " +:+ show_pos pos)]
      end
  end.

(** [/js home clear] *)
Definition js_home_clear (src : Source) (st : ModState) : Outcome :=
  match src_player src with
  | None => ret 0 st []
  | Some player =>
      ret 1 (set_homeData (delete (uuid player) (homeData st)) st)
        [SendFeedback "🏠 Home cleared."]
  end.

(** [/js warp set <name>] *)
Definition js_warp_set (src : Source) (arg : string) (st : ModState) : Outcome :=
  match src_player src with
  | None => ret 0 st []
  | Some player =>
      let name := Str.toLowerCase arg in
      let pos := block_of player in
      ret 1 (set_warpData (<[name := pos]> (warpData st)) st)
        [SendFeedback ("🧭 Warp '" +:+ name +:+ "' set at " +:+ show_pos pos)]
  end.

(** [/js warp go <name>] *)
Definition js_warp_go (src : Source) (arg : string) (st : ModState) : Outcome :=
  match src_player src with
  | None => ret 0 st []
  | Some player =>
      let name := Str.toLowerCase arg in
      match warpData st !! name with
      | None => ret 0 st [SendError ("Unknown warp: " +:+ name)]
      | Some pos =>
          ret 1 st [teleport_to_block player pos;
                    SendFeedback ("🧭 Warped to " +:+ name +:+ "!")]
      end
  end.

(** [/js warp list]; the names come in the order of [map_to_list], the
    game lists them in the iteration order of the [HashMap]. *)
Definition js_warp_list (st : ModState) : Outcome :=
  if bool_decide (warpData st = ∅) then ret 1 st [SendFeedback "No warps set."]
  else
    ret 1 st
      (SendFeedback "🧭 Warps: "
       :: map (fun kv => SendFeedback ("  • " +:+ fst kv)) (map_to_list (warpData st))).

(** [/js warp remove <name>] *)
Definition js_warp_remove (arg : string) (st : ModState) : Outcome :=
  let name := Str.toLowerCase arg in
  match warpData st !! name with
  | None => ret 0 st [SendError ("Unknown warp: " +:+ name)]
  | Some _ =>
      ret 1 (set_warpData (delete name (warpData st)) st)
        [SendFeedback ("🧭 Removed warp " +:+ name +:+ ".")]
  end.

(** [/js effect add <effect> <seconds> [level]]; [level] is [None] for the
    three-argument form.  [getStatusEffectByName] is [null] for a name the
    registry does not hold. *)
Definition js_effect_add (src : Source) (server : Server) (effectName : string)
    (seconds : Z) (level : option Z) (st : ModState) : Outcome :=
  match src_player src with
  | None => ret 0 st []
  | Some player =>
      if effect_known server effectName then
        match level with
        | Some lv =>
            ret 1 st
              [AddStatusEffect (uuid player) effectName (seconds * 20) (lv - 1);
               SendFeedback ("✨ Effect applied: " +:+ effectName +:+ " " +:+ pretty lv
                             +:+ " for " +:+ pretty seconds +:+ "s")]
        | None =>
            ret 1 st
              [AddStatusEffect (uuid player) effectName (seconds * 20) 0;
               SendFeedback ("✨ Effect applied: " +:+ effectName +:+ " 1 for "
                             +:+ pretty seconds +:+ "s")]
        end
      else ret 0 st [SendError ("Unknown effect: " +:+ effectName)]
  end.

(** [/js effect clear] *)
Definition js_effect_clear (src : Source) (st : ModState) : Outcome :=
  match src_player src with
  | None => ret 0 st []
  | Some player =>
      ret 1 st [ClearStatusEffects (uuid player); SendFeedback "✨ Cleared all effects."]
  end.

(** [/js weather set <mode>] *)
Definition js_weather_set (mode : string) (st : ModState) : Outcome :=
  let done_ (e : Effect) :=
    ret 1 st [e; SendFeedback ("⛅ Weather set to " +:+ mode +:+ ".")] in
  if String.eqb mode "clear" then done_ (SetWeather 6000 0 false false)
  else if String.eqb mode "rain" then done_ (SetWeather 0 6000 true false)
  else if String.eqb mode "thunder" then done_ (SetWeather 0 6000 true true)
  else ret 0 st [SendError ("Unknown weather: " +:+ mode)].

(** [/js daily]; [now] is [System.currentTimeMillis()]. *)
Definition js_daily (src : Source) (now : Z) (st : ModState) : Outcome :=
  match src_player src with
  | None => ret 0 st []
  | Some player =>
      let claim :=
        ret 1 (set_dailyClaims (<[uuid player := now]> (dailyClaims st)) st)
          [GiveItemStack (uuid player) "EMERALD" 3;
           GiveItemStack (uuid player) "GOLDEN_APPLE" 1;
           SendFeedback "🎁 Daily reward claimed!"] in
      match dailyClaims st !! uuid player with
      | Some last =>
          let elapsed := now - last in
          if bool_decide (elapsed < DAILY_COOLDOWN_MS) then
            let remaining := DAILY_COOLDOWN_MS - elapsed in
            ret 0 st [SendFeedback ("🎁 Daily reward available in "
                                    +:+ formatDurationMs remaining +:+ ".")]
          else claim
      | None => claim
      end
  end.

(** The standalone [/kit] (iron tier) *)
Definition kit (src : Source) (st : ModState) : Outcome :=
  match src_player src with
  | None => ret 0 st []
  | Some player =>
      ret 1 st
        [GiveItemStack (uuid player) "IRON_SWORD" 1;
         GiveItemStack (uuid player) "IRON_PICKAXE" 1;
         GiveItemStack (uuid player) "IRON_AXE" 1;
         GiveItemStack (uuid player) "BREAD" 16;
         GiveItemStack (uuid player) "TORCH" 32;
         GiveItemStack (uuid player) "OAK_PLANKS" 64;
         GiveItemStack (uuid player) "CRAFTING_TABLE" 1;
         GiveItemStack (uuid player) "FURNACE" 1;
         PlaySound "ENTITY_ITEM_PICKUP" (uuid player);
         SpawnParticles "HAPPY_VILLAGER" (AtPlayer (uuid player) 1) 15;
         SendFeedback "🎒 Starter kit received!"]
  end.

(** ** All registered commands *)

(** One invocation of a registered command, with its parsed arguments and
    the clock readings and random draws its handler makes. *)
Inductive Command : Type :=
| JsHelp
| JsGreet (target : string)
| JsRoll (sides : option Z) (draw : Z)
| JsPlaytime (now : Z)
| JsKit
| JsTp (x y z : Q)
| JsBoom
| JsParticles
| JsHand
| JsTop
| JsHealTarget (target : string)
| JsHeal
| JsGamemode (mode : string)
| JsStack (amount : Z)
| JsNear
| JsTimeSet (value : string)
| JsTimeAdd (ticks : Z)
| JsActionbar (text : string)
| JsHomeSet
| JsHomeGo
| JsHomeInfo
| JsHomeClear
| JsWarpSet (name : string)
| JsWarpGo (name : string)
| JsWarpList
| JsWarpRemove (name : string)
| JsEffectAdd (effect : string) (seconds : Z) (level : option Z)
| JsEffectClear
| JsWeatherSet (mode : string)
| JsDaily (now : Z)
| Kit.

Definition execute (src : Source) (server : Server) (c : Command) (st : ModState)
  : Outcome :=
  match c with
  | JsHelp => js_help st
  | JsGreet target => js_greet src server target st
  | JsRoll sides draw => js_roll src server sides draw st
  | JsPlaytime now => js_playtime src now st
  | JsKit => js_kit src st
  | JsTp x y z => js_tp src server x y z st
  | JsBoom => js_boom src st
  | JsParticles => js_particles src st
  | JsHand => js_hand src st
  | JsTop => js_top src server st
  | JsHealTarget target => js_heal_target server target st
  | JsHeal => js_heal src st
  | JsGamemode mode => js_gamemode src server mode st
  | JsStack amount => js_stack src amount st
  | JsNear => js_near src server st
  | JsTimeSet value => js_time_set server value st
  | JsTimeAdd ticks => js_time_add server ticks st
  | JsActionbar text => js_actionbar src text st
  | JsHomeSet => js_home_set src st
  | JsHomeGo => js_home_go src st
  | JsHomeInfo => js_home_info src st
  | JsHomeClear => js_home_clear src st
  | JsWarpSet name => js_warp_set src name st
  | JsWarpGo name => js_warp_go src name st
  | JsWarpList => js_warp_list st
  | JsWarpRemove name => js_warp_remove name st
  | JsEffectAdd effect seconds level => js_effect_add src server effect seconds level st
  | JsEffectClear => js_effect_clear src st
  | JsWeatherSet mode => js_weather_set mode st
  | JsDaily now => js_daily src now st
  | Kit => kit src st
  end.



(** A player for examples, standing at the origin with an empty hand. *)
Definition steve : Player := mkPlayer "uuid-steve" "Steve" 0 64 0 None.

Definition as_steve : Source := mkSource "Steve" (Some steve).


(** ** Runs of the mod *)

(** What the host can do with the loaded mod: deliver an event, run a
    command, and (for code that schedules outside a join) call
    [scheduleTask]. *)
Inductive Step : Type :=
| Join (p : Player) (server : Server) (now : Z) (draw : nat)
| Disconnect (p : Player) (now : Z)
| Tick (fuel : nat) (server : Server)
| Schedule (delayTicks : Z) (a : Action)
| Run (src : Source) (server : Server) (c : Command).

Definition step (s : Step) (st : ModState) : option (ModState * list Effect) :=
  match s with
  | Join p server now draw => Some (onPlayReady p server now draw st)
  | Disconnect p now => Some (onPlayDisconnect p now st)
  | Tick fuel server => onEndTick fuel server st
  | Schedule d a => Some (scheduleTask d a st, [])
  | Run src server c =>
      let o := execute src server c st in Some (state o, effects o)
  end.

(** A run from a state: the final state and every effect in order; [None]
    when a tick was given too little fuel. *)
Fixpoint run (steps : list Step) (st : ModState) : option (ModState * list Effect) :=
  match steps with
  | [] => Some (st, [])
  | s :: rest =>
      match step s st with
      | None => None
      | Some (st1, out1) =>
          match run rest st1 with
          | None => None
          | Some (st2, out2) => Some (st2, out1 ++ out2)
          end
      end
  end.

(** ** Notions used to state the properties of the scheduler *)

(** The task objects whose action was called, in call order. *)
Definition ran_ids (out : list Effect) : list nat :=
  omap (fun e => match e with ActionRan id _ => Some id | _ => None end) out.

Definition task_ids (l : list Task) : list nat := map task_id l.

(** A task is pending at tick [tc] when its target tick lies ahead. *)
Definition pending (tc : Z) (t : Task) : Prop := tc < tickTarget t.

#[export] Instance pending_dec (tc : Z) (t : Task) : Decision (pending tc t).
Proof. unfold pending. apply _. Defined.

(** A quiet server: nobody online, an all-air overworld, no known game mode
    or status effect. *)
Definition quiet_server : Server :=
  mkServer [] (fun _ _ _ => true) 320 (-64) 0 (fun _ => false) (fun _ => false)
           (fun _ => None) (fun _ => "").

(** Tasks created by the [scheduleTask] calls of one action body run at
    tick [tc] when [n] objects have been allocated. *)
Fixpoint spawned (n : nat) (tc : Z) (spawns : list (Z * Action)) : list Task :=
  match spawns with
  | [] => []
  | da :: rest => mkTask n (tc + fst da) (snd da) :: spawned (S n) tc rest
  end.

(** [same_maps st st']: the tick counter and the four maps agree. *)
Definition same_maps (st st' : ModState) : Prop :=
  tickCounter st' = tickCounter st /\ playerData st' = playerData st /\
  homeData st' = homeData st /\ warpData st' = warpData st /\
  dailyClaims st' = dailyClaims st.

(** The invariant of a run with history [h]: the tasks that ran and the
    tasks still listed are pairwise different objects, all allocated. *)
Definition sched_inv (st : ModState) (h : list Effect) : Prop :=
  NoDup (ran_ids h ++ task_ids (scheduledTasks st))
  /\ Forall (fun id => (id < next_obj st)%nat) (ran_ids h ++ task_ids (scheduledTasks st)).

(** Two tasks: one due at once whose action throws, one due in five ticks. *)
Definition two_tasks : ModState :=
  scheduleTask 5 (Act "later" [] None)
    (scheduleTask 0 (Act "now" [] (Some "Error: boom")) initial_state).

(** A run in which an action schedules a task that is due in the same sweep. *)
Definition sample_run : list Step :=
  [ Schedule 0 (Act "first" [(0, Act "child" [] None)] None);
    Schedule 1 (Act "second" [] (Some "Error"));
    Tick 10 quiet_server;
    Tick 10 quiet_server ].

Definition label_of (t : Task) : string :=
  match action t with Act lbl _ _ => lbl end.

(** The line logged when the action of [t] throws. *)
Definition warn_of (t : Task) : list Effect :=
  match action t with
  | Act _ _ (Some e) => [LogWarn ("Scheduled task error: " +:+ e)]
  | Act _ _ None => []
  end.

(** The items a handler handed to the player [u]. *)
Definition items_given (u : string) (out : list Effect) : list (string * Z) :=
  omap (fun e => match e with
                 | GiveItemStack p item count =>
                     if bool_decide (p = u) then Some (item, count) else None
                 | _ => None
                 end) out.


(** ** Notions used to state further properties of the mod *)

(** [n] consecutive server ticks, each sweep given the fuel it needs. *)
Fixpoint ticks (n : nat) (server : Server) (st : ModState)
  : option (ModState * list Effect) :=
  match n with
  | O => Some (st, [])
  | S n' =>
      match onEndTick (sweep_fuel st) server st with
      | None => None
      | Some (st1, out1) =>
          match ticks n' server st1 with
          | None => None
          | Some (st2, out2) => Some (st2, out1 ++ out2)
          end
      end
  end.

(** The steps that write the home of the player with id [u]. *)
Definition writes_home (u : string) (s : Step) : Prop :=
  match s with
  | Run src _ JsHomeSet | Run src _ JsHomeClear => uuid <$> src_player src = Some u
  | _ => False
  end.

(** The steps that write the warp [name]. *)
Definition writes_warp (name : string) (s : Step) : Prop :=
  match s with
  | Run src _ (JsWarpSet arg) => is_Some (src_player src) /\ Str.toLowerCase arg = name
  | Run _ _ (JsWarpRemove arg) => Str.toLowerCase arg = name
  | _ => False
  end.

(** The steps that write the session record of the player with id [u]. *)
Definition writes_session (u : string) (s : Step) : Prop :=
  match s with
  | Join p _ _ _ | Disconnect p _ => uuid p = u
  | _ => False
  end.

(** The commands whose handler writes one of the maps of the mod. *)
Definition writes_state (c : Command) : bool :=
  match c with
  | JsHomeSet | JsHomeClear | JsWarpSet _ | JsWarpRemove _ | JsDaily _ => true
  | _ => false
  end.


(** The commands whose handler hands out items. *)
Definition gives_items (c : Command) : bool :=
  match c with
  | JsKit | JsDaily _ | Kit => true
  | _ => false
  end.

End SampleMod.

(* ===================================================================== *)
(** * The documentation version selector ([version.js])                   *)
(* ===================================================================== *)

Module VersionSelector.

(** The documented values of [options.pageKey]. *)
Inductive PageKey : Type := api | inspector | examples.

(** An entry of the version table; [pages k] is [None] when the entry has
    no property for [k]. *)
Record Version := mkVersion {
  id : string;
  label : string;
  note : string;
  pages : PageKey -> option string
}.

Definition VERSION_CONFIG : list Version :=
  [ mkVersion "main" "main (latest)" "Tracking the latest code on the main branch."
      (fun k => match k with
                | api => Some "index.html"
                | inspector => Some "inspector.html"
                | examples => Some "example-mods.html"
                end);
    mkVersion "v1.0.0" "v1.0.0" "Snapshot of the API for ThreadJS v1.0.0."
      (fun k => match k with
                | api => Some "v1.0.0/index.html"
                | inspector => Some "v1.0.0/inspector.html"
                | examples => Some "v1.0.0/example-mods.html"
                end) ].

(** [v.pages && v.pages[pageKey]] when it is truthy. *)
Definition page_href (v : Version) (pageKey : PageKey) : option string :=
  match pages v pageKey with
  | Some href => if String.eqb href "" then None else Some href
  | None => None
  end.

(** [("/" + pageHref).replace(/\/+$/, "")] *)
Definition href_path (pageHref : string) : string :=
  Str.strip_trailing_slashes ("/" +:+ pageHref).

(** A [<select>]: its options (value and text) and [selectedIndex]. *)
Record Select := mkSelect {
  options : list (string * string);
  selectedIndex : Z
}.

(** [select.selectedIndex = i]: the option at [i] becomes the selected
    one; when there is no such option, none is selected and the property
    reads [-1]. *)
Definition set_selectedIndex (i : nat) (sel : Select) : Select :=
  mkSelect (options sel)
           (if bool_decide (i < length (options sel))%nat then Z.of_nat i else -1).

(** [select.value] *)
Definition select_value (sel : Select) : string :=
  if bool_decide (0 <= selectedIndex sel)
  then default "" (fst <$> options sel !! Z.to_nat (selectedIndex sel))
  else "".

(** The page: its [<select>] elements and note elements by id, the path of
    its location, and the last value assigned to [window.location.href]. *)
Record Page := mkPage {
  selects : gmap string Select;
  notes : gmap string string;
  pathname : string;
  href_assigned : option string
}.

(** The argument of the initializer; [None] is a missing or empty string. *)
Record Options := mkOptions {
  selectId : option string;
  noteId : option string;
  pageKey : PageKey
}.

(** One iteration of [config.forEach(function (v, idx) { ... })]: the
    accumulator holds the options appended so far and [currentIndex]. *)
Definition visit (key : PageKey) (currentPath : string)
    (acc : list (string * string) * nat) (entry : nat * Version)
  : list (string * string) * nat :=
  match page_href (snd entry) key with
  | None => acc
  | Some pageHref =>
      (fst acc ++ [(id (snd entry), label (snd entry))],
       if Str.endsWith currentPath (href_path pageHref) then fst entry else snd acc)
  end.

Definition scan (config : list Version) (key : PageKey) (currentPath : string)
  : list (string * string) * nat :=
  fold_left (visit key currentPath) (imap pair config) ([], O).

(** The [change] listener: [selectedId] is [select.value]; the result is
    the value assigned to [window.location.href], if any. *)
Definition on_change (config : list Version) (key : PageKey) (selectedId : string)
  : option string :=
  match list_find (fun v => id v = selectedId) config with
  | None => None
  | Some (_, version) => page_href version key
  end.

(** The event dispatched when the user picks the option at index [i]. *)
Definition change (config : list Version) (key : PageKey) (selId : string) (i : nat)
    (page : Page) : Page :=
  match selects page !! selId with
  | None => page
  | Some sel =>
      let sel' := set_selectedIndex i sel in
      let page' := mkPage (<[selId := sel']> (selects page)) (notes page)
                          (pathname page) (href_assigned page) in
      match on_change config key (select_value sel') with
      | None => page'
      | Some target =>
          mkPage (selects page') (notes page') (pathname page') (Some target)
      end
  end.

(** [initThreadJsVersionSelector(options)] on the table [config]: the page
    after the call, or the warning logged when it returns early. *)
Definition init_with (config : list Version) (opts : option Options) (page : Page)
  : string + Page :=
  match opts with
  | None => inl "[ThreadJS] initThreadJsVersionSelector: missing options"
  | Some o =>
      match selectId o with
      | None => inl "[ThreadJS] initThreadJsVersionSelector: missing options"
      | Some selId =>
          match selects page !! selId with
          | None => inl "[ThreadJS] version select element not found:"
          | Some select =>
              let currentPath := Str.strip_trailing_slashes (pathname page) in
              let '(added, currentIndex) := scan config (pageKey o) currentPath in
              let select' :=
                set_selectedIndex currentIndex
                  (mkSelect (options select ++ added) (selectedIndex select)) in
              let notes' :=
                match noteId o with
                | None => notes page
                | Some nid =>
                    match notes page !! nid, config !! currentIndex with
                    | Some _, Some currentVersion =>
                        if String.eqb (note currentVersion) "" then notes page
                        else <[nid := note currentVersion]> (notes page)
                    | _, _ => notes page
                    end
                end in
              inr (mkPage (<[selId := select']> (selects page)) notes'
                          (pathname page) (href_assigned page))
          end
      end
  end.

Definition initThreadJsVersionSelector := init_with VERSION_CONFIG.

(** [idx] is the index of an entry whose normalised page path for [key]
    is a suffix of [currentPath]. *)
Definition matches_at (config : list Version) (key : PageKey) (currentPath : string)
    (idx : nat) : Prop :=
  exists v pageHref,
    config !! idx = Some v /\ page_href v key = Some pageHref /\
    Str.endsWith currentPath (href_path pageHref) = true.

(** The same for a location path, normalised first. *)
Definition matches (config : list Version) (key : PageKey) (path : string) (idx : nat)
  : Prop :=
  matches_at config key (Str.strip_trailing_slashes path) idx.

(** The page of the v1.0.0 API reference as GitHub Pages serves it, with
    an empty [<select id="versionSelect">] and a note element. *)
Definition v1_api_page : Page :=
  mkPage {["versionSelect" := mkSelect [] (-1)]} {["versionNote" := ""]}
         "/ThreadJS/v1.0.0/index.html" None.

Definition api_options : Options :=
  mkOptions (Some "versionSelect") (Some "versionNote") api.

(** The option the initializer appends for an entry: none when the entry
    has no page for the key. *)
Definition option_of (key : PageKey) (v : Version) : option (string * string) :=
  match page_href v key with
  | Some _ => Some (id v, label v)
  | None => None
  end.

End VersionSelector.

(* ===================================================================== *)
(** * Properties of the sample mod's scheduler                            *)
(* ===================================================================== *)

Section Scheduler.
Import SampleMod.

(** The [scheduleTask] calls of one action body append its tasks, numbered
    from [next_obj] on, and touch nothing else. *)
Lemma fold_scheduleTask spawns : forall st,
  fold_left (fun s da => scheduleTask (fst da) (snd da) s) spawns st =
  mkModState (tickCounter st) (playerData st)
             (scheduledTasks st ++ spawned (next_obj st) (tickCounter st) spawns)
             (homeData st) (warpData st) (dailyClaims st)
             (next_obj st + length spawns)%nat.
Proof.
  induction spawns as [|da rest IH]; intros st; simpl.
  - rewrite app_nil_r, Nat.add_0_r. by destruct st.
  - rewrite IH. simpl. rewrite <- app_assoc. simpl. f_equal. lia.
Qed.

Lemma spawned_ids n tc spawns : task_ids (spawned n tc spawns) = seq n (length spawns).
Proof. revert n. induction spawns; intros n; simpl; [done|]. f_equal. apply IHspawns. Qed.

(** Running an action trades its own iteration for those of its tasks. *)
Lemma spawned_weight n tc spawns lbl th :
  S (tasks_weight (spawned n tc spawns)) = action_weight (Act lbl spawns th).
Proof.
  simpl. f_equal. revert n. induction spawns as [|[d a] rest IH]; intros n; simpl; [done|].
  unfold tasks_weight in *. simpl. f_equal. apply IH.
Qed.

Lemma tasks_weight_app l1 l2 : tasks_weight (l1 ++ l2) = (tasks_weight l1 + tasks_weight l2)%nat.
Proof. unfold tasks_weight. rewrite map_app. induction (map _ l1); simpl; lia. Qed.

Lemma action_weight_pos a : (0 < action_weight a)%nat.
Proof. destruct a; simpl; lia. Qed.

Lemma ran_ids_app o1 o2 : ran_ids (o1 ++ o2) = ran_ids o1 ++ ran_ids o2.
Proof. unfold ran_ids. apply omap_app. Qed.

(** ** The sweep

    The loop entered at index [i] with enough fuel returns.  It keeps the
    entries before [i], keeps of the entries from [i] on those that are
    pending, in order, and appends the pending tasks the called actions
    scheduled ([extra]).  The objects that ran together with those still
    listed from [i] on are the objects listed from [i] on before, together with
    the objects allocated meanwhile.  Every due entry ran (and its warning was
    logged if it threw); whatever ran was due, or was allocated meanwhile. *)
Lemma sweep_spec fuel : forall i st,
  (tasks_weight (drop i (scheduledTasks st)) < fuel)%nat ->
  exists st' out extra,
    sweep fuel i st = Some (st', out)
    /\ same_maps st st'
    /\ scheduledTasks st' =
         take i (scheduledTasks st)
         ++ filter (pending (tickCounter st)) (drop i (scheduledTasks st)) ++ extra
    /\ Forall (pending (tickCounter st)) extra
    /\ (next_obj st <= next_obj st')%nat
    /\ ran_ids out
         ++ task_ids (filter (pending (tickCounter st)) (drop i (scheduledTasks st)) ++ extra)
       ≡ₚ task_ids (drop i (scheduledTasks st))
            ++ seq (next_obj st) (next_obj st' - next_obj st)
    /\ (forall t, t ∈ drop i (scheduledTasks st) -> tickTarget t <= tickCounter st ->
          ActionRan (task_id t) (label_of t) ∈ out /\ warn_of t ⊆ out)
    /\ (forall id lbl, ActionRan id lbl ∈ out ->
          (exists t, t ∈ drop i (scheduledTasks st) /\ task_id t = id
                     /\ label_of t = lbl /\ tickTarget t <= tickCounter st)
          \/ (next_obj st <= id < next_obj st')%nat).
Proof.
  induction fuel as [|fuel IH]; intros i st Hfuel; [lia|].
  simpl. destruct (scheduledTasks st !! i) as [t|] eqn:Hi.
  2:{ apply lookup_ge_None in Hi.
      exists st, [], []. rewrite drop_ge, take_ge by lia. simpl.
      rewrite Nat.sub_diag, !app_nil_r. repeat split; try done.
      all: intros; exfalso; eapply elem_of_nil; eauto. }
  pose proof (lookup_lt_Some _ _ _ Hi) as Hlt.
  rewrite (drop_S _ _ _ Hi) in *.
  case_bool_decide as Hdue.
  - (* due: run and remove *)
    unfold run_guarded, call_action.
    destruct (action t) as [lbl spawns th] eqn:Hact.
    rewrite fold_scheduleTask.
    set (new := spawned (next_obj st) (tickCounter st) spawns).
    set (st2 := set_scheduledTasks _ _).
    assert (Htasks2 : scheduledTasks st2
              = take i (scheduledTasks st) ++ drop (S i) (scheduledTasks st) ++ new).
    { subst st2. simpl. rewrite delete_take_drop.
      by rewrite take_app_le, drop_app_le by lia. }
    assert (Hdrop2 : drop i (scheduledTasks st2) = drop (S i) (scheduledTasks st) ++ new).
    { rewrite Htasks2. rewrite drop_app_length'; [done|]. rewrite length_take. lia. }
    assert (Htake2 : take i (scheduledTasks st2) = take i (scheduledTasks st)).
    { rewrite Htasks2. rewrite take_app_length'; [done|]. rewrite length_take. lia. }
    destruct (IH i st2) as (st' & out' & extra & Hsw & Hsame & Hl & Hex & Hn & Hperm & Hran & Honly).
    { rewrite Hdrop2, tasks_weight_app.
      pose proof (spawned_weight (next_obj st) (tickCounter st) spawns lbl th) as Hw.
      fold new in Hw. rewrite <- Hact in Hw.
      unfold tasks_weight in Hfuel at 1. simpl in Hfuel.
      fold (tasks_weight (drop (S i) (scheduledTasks st))) in Hfuel. lia. }
    rewrite Hsw. rewrite Hdrop2, Htake2 in *.
    assert (Htc2 : tickCounter st2 = tickCounter st) by done.
    assert (Hn2 : next_obj st2 = (next_obj st + length spawns)%nat) by done.
    rewrite Htc2, Hn2 in *.
    exists st', (([ActionRan (task_id t) lbl]
                  ++ match th with
                     | Some e => [LogWarn ("Scheduled task error: " +:+ e)]
                     | None => []
                     end) ++ out'),
           (filter (pending (tickCounter st)) new ++ extra).
    split; [done|]. split.
    { destruct Hsame as (?&?&?&?&?). by repeat split. }
    split.
    { rewrite Hl. rewrite filter_cons_False by (unfold pending; lia).
      rewrite filter_app. by rewrite <- !app_assoc. }
    split.
    { apply Forall_app. split; [|done]. apply Forall_forall. intros x Hx.
      by apply list_elem_of_filter in Hx as [? _]. }
    split; [lia|]. split.
    { rewrite filter_cons_False by (unfold pending; lia).
      rewrite filter_app in Hperm. rewrite <- !app_assoc in Hperm.
      rewrite ran_ids_app.
      replace (ran_ids ([ActionRan (task_id t) lbl] ++ _)) with [task_id t]
        by (by destruct th).
      simpl. constructor.
      rewrite Hperm.
      unfold task_ids at 1. rewrite map_app.
      fold (task_ids new) (task_ids (drop (S i) (scheduledTasks st))).
      unfold new at 1. rewrite spawned_ids.
      rewrite <- app_assoc. f_equiv.
      replace (next_obj st' - next_obj st)%nat
        with (length spawns + (next_obj st' - (next_obj st + length spawns)))%nat by lia.
      by rewrite seq_app. }
    split.
    { intros x Hx Hxdue. apply elem_of_cons in Hx as [->|Hx].
      - unfold label_of, warn_of. rewrite Hact. split.
        + apply elem_of_app. left. apply elem_of_app. left.
          by apply list_elem_of_singleton.
        + intros e He. apply elem_of_app. left. apply elem_of_app. right.
          by destruct th.
      - destruct (Hran x) as [H1 H2]; [apply elem_of_app; by left|done|]. split.
        + apply elem_of_app. by right.
        + intros e He. apply elem_of_app. right. by apply H2. }
    { intros id l0 Hin. rewrite !elem_of_app in Hin.
      destruct Hin as [[Hin|Hin]|Hin].
      - apply list_elem_of_singleton in Hin. inversion Hin; subst. left.
        exists t. unfold label_of. rewrite Hact. repeat split; [by left|done].
      - destruct th; [|by apply elem_of_nil in Hin].
        apply list_elem_of_singleton in Hin. discriminate.
      - destruct (Honly id l0 Hin) as [(x & Hx & Hid & Hlb & Hd)|Hfresh]; [|right; lia].
        apply elem_of_app in Hx as [Hx|Hx].
        + left. exists x. repeat split; try done. by right.
        + right. assert (Hidx : task_id x ∈ task_ids new).
          { unfold task_ids. apply list_elem_of_fmap. by exists x. }
          unfold new in Hidx. rewrite spawned_ids in Hidx.
          apply list_elem_of_In, in_seq in Hidx. lia. }
  - (* not due: advance *)
    destruct (IH (S i) st) as (st' & out' & extra & Hsw & Hsame & Hl & Hex & Hn & Hperm & Hran & Honly).
    { unfold tasks_weight in Hfuel. simpl in Hfuel.
      fold (tasks_weight (drop (S i) (scheduledTasks st))) in Hfuel.
      pose proof (action_weight_pos (action t)). lia. }
    rewrite Hsw. exists st', out', extra.
    split; [done|]. split; [done|]. split.
    { rewrite Hl. rewrite filter_cons_True by (unfold pending; lia).
      rewrite (take_S_r _ _ _ Hi). by rewrite <- !app_assoc. }
    split; [done|]. split; [done|]. split.
    { rewrite filter_cons_True by (unfold pending; lia). simpl.
      rewrite <- Permutation_middle. by constructor. }
    split.
    { intros x Hx Hxdue. apply elem_of_cons in Hx as [->|Hx]; [lia|]. by apply Hran. }
    { intros id l0 Hin. destruct (Honly id l0 Hin) as [(x & Hx & Hrest)|Hfresh]; [|by right].
      left. exists x. split; [by right|done]. }
Qed.

(** The loop terminates: [S (tasks_weight ...)] units of fuel are enough. *)
Lemma sweep_total (st : ModState) (fuel : nat) (i : nat) :
  (S (tasks_weight (drop i (scheduledTasks st))) <= fuel)%nat ->
  is_Some (sweep fuel i st).
Proof.
  intros H. destruct (sweep_spec fuel i st) as (st' & out & ? & Hsw & _); [lia|].
  rewrite Hsw. by eexists.
Qed.

(** More fuel does not change the result. *)
Lemma sweep_mono fuel : forall fuel' i st r,
  sweep fuel i st = Some r -> (fuel <= fuel')%nat -> sweep fuel' i st = Some r.
Proof.
  induction fuel as [|fuel IH]; intros fuel' i st r Hsw Hle; [done|].
  destruct fuel' as [|fuel']; [lia|]. simpl in *.
  destruct (scheduledTasks st !! i) as [t|]; [|done].
  case_bool_decide.
  - destruct (run_guarded t st) as [st1 out].
    destruct (sweep fuel i _) as [[st3 out']|] eqn:Hrec; [|done].
    rewrite (IH fuel' i _ _ Hrec) by lia. exact Hsw.
  - eapply IH; [exact Hsw|lia].
Qed.

(** ** The tick handler *)

(** What a tick does, in full. *)
Lemma onEndTick_spec (server : Server) (st : ModState) (fuel : nat) :
  (sweep_fuel st <= fuel)%nat ->
  exists st' out burst extra,
    onEndTick fuel server st = Some (st', out ++ burst)
    /\ ran_ids burst = []
    /\ tickCounter st' = tickCounter st + 1
    /\ playerData st' = playerData st /\ homeData st' = homeData st
    /\ warpData st' = warpData st /\ dailyClaims st' = dailyClaims st
    /\ scheduledTasks st' = filter (pending (tickCounter st')) (scheduledTasks st) ++ extra
    /\ Forall (pending (tickCounter st')) extra
    /\ (next_obj st <= next_obj st')%nat
    /\ ran_ids out ++ task_ids (scheduledTasks st')
       ≡ₚ task_ids (scheduledTasks st) ++ seq (next_obj st) (next_obj st' - next_obj st)
    /\ (forall t, t ∈ scheduledTasks st -> tickTarget t <= tickCounter st' ->
          ActionRan (task_id t) (label_of t) ∈ out /\ warn_of t ⊆ out)
    /\ (forall id lbl, ActionRan id lbl ∈ out ->
          (exists t, t ∈ scheduledTasks st /\ task_id t = id
                     /\ label_of t = lbl /\ tickTarget t <= tickCounter st')
          \/ (next_obj st <= id < next_obj st')%nat).
Proof.
  intros Hfuel. unfold onEndTick.
  set (st1 := set_tickCounter (tickCounter st + 1) st).
  destruct (sweep_spec fuel O st1)
    as (st' & out & extra & Hsw & Hsame & Hl & Hex & Hn & Hperm & Hran & Honly).
  { unfold sweep_fuel in Hfuel. rewrite drop_0. subst st1.
    unfold set_tickCounter. cbn [scheduledTasks]. lia. }
  rewrite Hsw. destruct Hsame as (Htc & Hpd & Hhd & Hwd & Hdc).
  simpl in *. rewrite drop_0 in *.
  eexists st', out, _, extra. split; [reflexivity|].
  rewrite Htc. simpl in Hl. rewrite <- Hl in Hperm.
  split.
  { case_bool_decide; [|done].
    unfold ran_ids. induction (online server); simpl; auto. }
  repeat split; try done; by apply Hran.
Qed.

(** Whatever fuel made a tick succeed, its result is the specified one. *)
Lemma onEndTick_some (server : Server) (st : ModState) (fuel : nat) st' out :
  onEndTick fuel server st = Some (st', out) ->
  onEndTick (max fuel (sweep_fuel st)) server st = Some (st', out).
Proof.
  unfold onEndTick. intros Htick.
  destruct (sweep fuel 0 _) as [[sa oa]|] eqn:Hsw; [|done].
  rewrite (sweep_mono _ (max fuel (sweep_fuel st)) _ _ _ Hsw) by lia. exact Htick.
Qed.

(** ** Runs *)

(** The invariant is kept by any step whose ran and listed objects are the
    listed objects of before and the objects it allocated. *)
Lemma sched_inv_extend st h st' out :
  sched_inv st h ->
  (next_obj st <= next_obj st')%nat ->
  ran_ids out ++ task_ids (scheduledTasks st')
    ≡ₚ task_ids (scheduledTasks st) ++ seq (next_obj st) (next_obj st' - next_obj st) ->
  sched_inv st' (h ++ out).
Proof.
  intros [Hnd Hlt] Hn Hperm. unfold sched_inv.
  rewrite ran_ids_app, <- app_assoc, Hperm, app_assoc. split.
  - apply NoDup_app. split; [done|]. split; [|apply NoDup_seq].
    intros id Hid Hseq. rewrite Forall_forall in Hlt. specialize (Hlt id Hid).
    apply list_elem_of_In, in_seq in Hseq. lia.
  - apply Forall_app. split.
    + eapply Forall_impl; [exact Hlt|]. simpl. lia.
    + apply Forall_forall. intros id Hseq. apply list_elem_of_In, in_seq in Hseq. lia.
Qed.

Lemma ran_ids_map_none {A} (f : A -> Effect) (l : list A) :
  (forall a, match f a with ActionRan _ _ => False | _ => True end) ->
  ran_ids (map f l) = [].
Proof.
  intros Hf. induction l as [|a l IH]; [done|]. simpl.
  unfold ran_ids in *. simpl. specialize (Hf a). destruct (f a); try done.
Qed.

Lemma ran_ids_imap_none {A} (f : nat -> A -> Effect) (l : list A) :
  (forall i a, match f i a with ActionRan _ _ => False | _ => True end) ->
  ran_ids (imap f l) = [].
Proof.
  revert f. induction l as [|a l IH]; intros f Hf; [done|]. simpl.
  unfold ran_ids in *. simpl. pose proof (Hf O a) as H0. destruct (f O a); try done;
    apply IH; intros; apply Hf.
Qed.

Lemma ran_ids_broadcast server text : ran_ids (broadcast server text) = [].
Proof. unfold broadcast. by apply ran_ids_map_none. Qed.

(** No command handler touches the scheduler or calls an action. *)
Lemma execute_scheduler_untouched src server c st :
  let o := execute src server c st in
  tickCounter (state o) = tickCounter st
  /\ scheduledTasks (state o) = scheduledTasks st
  /\ next_obj (state o) = next_obj st
  /\ ran_ids (effects o) = [].
Proof.
  destruct c; simpl;
    unfold js_help, js_greet, js_roll, js_playtime, js_kit, js_tp, js_boom,
      js_particles, js_hand, js_top, js_heal_target, js_heal, js_gamemode,
      js_stack, js_near, js_time_set, js_time_add, js_actionbar, js_home_set,
      js_home_go, js_home_info, js_home_clear, js_warp_set, js_warp_go,
      js_warp_list, js_warp_remove, js_effect_add, js_effect_clear,
      js_weather_set, js_daily, kit, ret;
    repeat case_match; simpl; repeat split; try done;
    rewrite ?ran_ids_app, ?ran_ids_broadcast; simpl;
    try (apply ran_ids_map_none; done); try done.
Qed.

(** Every step keeps the invariant. *)
Lemma step_inv s st st' out h :
  step s st = Some (st', out) -> sched_inv st h -> sched_inv st' (h ++ out).
Proof.
  intros Hstep Hinv. destruct s as [p server now draw|p now|fuel server|d a|src server c];
    simpl in Hstep.
  - inversion Hstep; subst; clear Hstep.
    eapply sched_inv_extend; [done|simpl; lia|]. simpl.
    rewrite ran_ids_app, ran_ids_broadcast. simpl.
    unfold task_ids. rewrite <- app_assoc, map_app. simpl.
    replace (S (S (next_obj st)) - next_obj st)%nat with 2%nat by lia. done.
  - inversion Hstep; subst; clear Hstep.
    eapply sched_inv_extend; [done|simpl; lia|]. simpl.
    rewrite Nat.sub_diag, app_nil_r. by destruct (playerData st !! uuid p).
  - rename Hstep into Htick.
    destruct (onEndTick_spec server st (max fuel (sweep_fuel st)))
      as (st2 & out2 & burst & extra & Hrun & Hb & _ & _ & _ & _ & _ & _ & _ & Hn & Hperm & _);
      [lia|].
    pose proof (onEndTick_some _ _ _ _ _ Htick) as Heq.
    rewrite Hrun in Heq. inversion Heq; subst; clear Heq.
    eapply sched_inv_extend; [done|done|].
    by rewrite ran_ids_app, Hb, app_nil_r.
  - inversion Hstep; subst; clear Hstep.
    eapply sched_inv_extend; [done|simpl; lia|]. simpl.
    unfold task_ids. rewrite map_app. simpl.
    replace (S (next_obj st) - next_obj st)%nat with 1%nat by lia. done.
  - inversion Hstep; subst; clear Hstep.
    destruct (execute_scheduler_untouched src server c st) as (_ & Hl & Hn & Hr).
    eapply sched_inv_extend; [done|lia|].
    rewrite Hr, Hl, Hn, Nat.sub_diag, app_nil_r. done.
Qed.

(** Every run keeps the invariant. *)
Lemma run_inv steps : forall st st' out h,
  run steps st = Some (st', out) -> sched_inv st h -> sched_inv st' (h ++ out).
Proof.
  induction steps as [|s rest IH]; intros st st' out h Hrun Hinv; simpl in Hrun.
  - inversion Hrun; subst. by rewrite app_nil_r.
  - destruct (step s st) as [[st1 out1]|] eqn:Hstep; [|done].
    destruct (run rest st1) as [[st2 out2]|] eqn:Hrest; [|done].
    inversion Hrun; subst; clear Hrun. rewrite app_assoc.
    eapply IH; [exact Hrest|]. by eapply step_inv.
Qed.

(** No step decreases the tick counter. *)
Lemma step_tickCounter s st st' out :
  step s st = Some (st', out) -> tickCounter st <= tickCounter st'.
Proof.
  intros Hstep. destruct s as [p server now draw|p now|fuel server|d a|src server c];
    simpl in Hstep.
  - by inversion Hstep.
  - by inversion Hstep.
  - pose proof (onEndTick_some _ _ _ _ _ Hstep) as Heq.
    destruct (onEndTick_spec server st (max fuel (sweep_fuel st)))
      as (st2 & out2 & burst & extra & Hrun & _ & Htc & _); [lia|].
    rewrite Hrun in Heq. inversion Heq; subst. lia.
  - by inversion Hstep.
  - inversion Hstep; subst.
    destruct (execute_scheduler_untouched src server c st) as (Htc & _). lia.
Qed.

(** C1: a tick given enough fuel for its loop returns; it adds 1 to the
    tick counter; every entry of the list whose target tick is at or before
    the new counter has its action called and is gone from the list, and when
    the action throws the thrown value is logged as a warning (the entry is
    gone all the same); an action that was called belongs to such an entry or
    to a task created during the sweep; the entries that are not yet due are
    kept unchanged and in order, followed by the not yet due tasks the called
    actions scheduled. *)
Theorem C1_tick_runs_and_removes_due_tasks (server : Server) (st : ModState) (fuel : nat) :
  (sweep_fuel st <= fuel)%nat ->
  exists st' out,
    onEndTick fuel server st = Some (st', out)
    /\ tickCounter st' = tickCounter st + 1
    /\ (forall t, t ∈ scheduledTasks st -> tickTarget t <= tickCounter st' ->
          ActionRan (task_id t) (label_of t) ∈ out
          /\ (forall lbl sp e, action t = Act lbl sp (Some e) ->
                LogWarn ("Scheduled task error: " +:+ e) ∈ out)
          /\ t ∉ scheduledTasks st')
    /\ (forall id lbl, ActionRan id lbl ∈ out ->
          (exists t, t ∈ scheduledTasks st /\ task_id t = id
                     /\ tickTarget t <= tickCounter st')
          \/ (next_obj st <= id)%nat)
    /\ (exists extra,
          scheduledTasks st'
          = filter (pending (tickCounter st')) (scheduledTasks st) ++ extra
          /\ Forall (pending (tickCounter st')) extra).
Proof.
  intros Hfuel.
  destruct (onEndTick_spec server st fuel Hfuel)
    as (st' & out & burst & extra & Hrun & Hb & Htc & _ & _ & _ & _ & Hl & Hex & Hn
        & Hperm & Hran & Honly).
  exists st', (out ++ burst). split; [done|]. split; [done|]. split; [|split].
  - intros t Ht Hdue. destruct (Hran t Ht Hdue) as [H1 H2]. split; [|split].
    + apply elem_of_app. by left.
    + intros lbl sp e Hact. apply elem_of_app. left. apply H2.
      unfold warn_of. rewrite Hact. by apply list_elem_of_singleton.
    + rewrite Hl. intros Hin. apply elem_of_app in Hin as [Hin|Hin].
      * apply list_elem_of_filter in Hin as [Hp _]. unfold pending in Hp. lia.
      * rewrite Forall_forall in Hex. specialize (Hex t Hin). unfold pending in Hex. lia.
  - intros id lbl Hin. apply elem_of_app in Hin as [Hin|Hin].
    + destruct (Honly id lbl Hin) as [(t & Ht & Hid & _ & Hd)|Hfresh].
      * left. by exists t.
      * right. lia.
    + exfalso. assert (Hmem : id ∈ ran_ids burst).
      { unfold ran_ids. apply list_elem_of_omap. by exists (ActionRan id lbl). }
      rewrite Hb in Hmem. by apply elem_of_nil in Hmem.
  - by exists extra.
Qed.

Lemma C1_witness :
  (sweep_fuel two_tasks <= 5)%nat
  /\ exists st' out,
       onEndTick 5 quiet_server two_tasks = Some (st', out)
       /\ tickCounter st' = 1.
Proof.
  split; [vm_compute; lia|].
  destruct (C1_tick_runs_and_removes_due_tasks quiet_server two_tasks 5)
    as (st' & out & Hrun & Htc & _); [vm_compute; lia|].
  exists st', out. split; [exact Hrun|exact Htc].
Defined.

(** C9: in every run from the initial state (joins, disconnects, ticks,
    [scheduleTask] calls, commands) the task objects whose action was called
    are pairwise different, so no task runs twice, and a task that ran is no
    longer in the list; no step decreases the tick counter; and a tick adds 1
    to it and leaves in the list only entries whose target tick lies after the
    new counter, so every due entry, consecutive ones included, was removed by
    that one sweep. *)
Theorem C9_each_task_runs_at_most_once (steps : list Step) (st : ModState)
    (out : list Effect) :
  run steps initial_state = Some (st, out) ->
  NoDup (ran_ids out)
  /\ (forall id, id ∈ ran_ids out -> id ∉ task_ids (scheduledTasks st))
  /\ (forall s st' out', step s st = Some (st', out') ->
        tickCounter st <= tickCounter st')
  /\ (forall fuel server st' out', step (Tick fuel server) st = Some (st', out') ->
        tickCounter st' = tickCounter st + 1
        /\ Forall (pending (tickCounter st')) (scheduledTasks st')).
Proof.
  intros Hrun.
  assert (Hinv : sched_inv st out).
  { apply (run_inv steps initial_state st out [] Hrun). split; simpl; constructor. }
  destruct Hinv as [Hnd _]. apply NoDup_app in Hnd as (Hnd1 & Hdisj & _).
  split; [done|]. split; [done|]. split.
  - intros s st' out'. apply step_tickCounter.
  - intros fuel server st' out' Hstep. simpl in Hstep.
    destruct (onEndTick_spec server st (max fuel (sweep_fuel st)))
      as (st2 & out2 & burst & extra & Hrun2 & _ & Htc & _ & _ & _ & _ & Hl & Hex & _);
      [lia|].
    pose proof (onEndTick_some _ _ _ _ _ Hstep) as Heq.
    rewrite Hrun2 in Heq. inversion Heq; subst; clear Heq.
    split; [done|]. rewrite Hl. apply Forall_app. split; [|done].
    apply Forall_forall. intros t Ht. by apply list_elem_of_filter in Ht as [? _].
Qed.

Lemma C9_witness :
  exists st out,
    run sample_run initial_state = Some (st, out)
    /\ NoDup (ran_ids out).
Proof.
  destruct (run sample_run initial_state) as [[st out]|] eqn:Hrun;
    [|vm_compute in Hrun; discriminate].
  exists st, out. split; [reflexivity|].
  exact (proj1 (C9_each_task_runs_at_most_once sample_run st out Hrun)).
Defined.

(** In [sample_run] the first tick finds two consecutive due entries and
    the task the first one schedules: all three run, in list order, and the
    second tick runs nothing. *)
Example sample_run_order :
  ran_ids (default [] (snd <$> run sample_run initial_state)) = [0; 1; 2]%nat.
Proof. vm_compute. reflexivity. Qed.

End Scheduler.

(* ===================================================================== *)
(** * Properties of the sample mod's commands                             *)
(* ===================================================================== *)

Section SampleCommands.
Import SampleMod.

(** Unfolds every command handler. *)
Ltac unfold_handlers :=
  unfold js_help, js_greet, js_roll, js_playtime, js_kit, js_tp, js_boom,
    js_particles, js_hand, js_top, js_heal_target, js_heal, js_gamemode,
    js_stack, js_near, js_time_set, js_time_add, js_actionbar, js_home_set,
    js_home_go, js_home_info, js_home_clear, js_warp_set, js_warp_go,
    js_warp_list, js_warp_remove, js_effect_add, js_effect_clear,
    js_weather_set, js_daily, kit, ret.

(** Only [/js daily] writes [dailyClaims]. *)
Lemma step_keeps_dailyClaims s st st' out :
  step s st = Some (st', out) ->
  (forall src server now, s <> Run src server (JsDaily now)) ->
  dailyClaims st' = dailyClaims st.
Proof.
  intros Hstep Hnot. destruct s as [p server now draw|p now|fuel server|d a|src server c];
    simpl in Hstep.
  - by inversion Hstep.
  - by inversion Hstep.
  - pose proof (onEndTick_some _ _ _ _ _ Hstep) as Heq.
    destruct (onEndTick_spec server st (max fuel (sweep_fuel st)))
      as (st2 & out2 & burst & extra & Hrun & _ & _ & _ & _ & _ & Hdc & _); [lia|].
    rewrite Hrun in Heq. by inversion Heq; subst.
  - by inversion Hstep.
  - inversion Hstep; subst; clear Hstep.
    destruct c; try (exfalso; by eapply Hnot); simpl; unfold_handlers;
      repeat case_match; simpl; done.
Qed.

(** A failed [/js daily] leaves the whole state alone, so the stored time
    of a player is the time of that player's last successful claim. *)
Lemma daily_writes_only_on_claim src now st :
  result (js_daily src now st) = Returned 0 -> state (js_daily src now st) = st.
Proof. unfold js_daily, ret. repeat case_match; simpl; done. Qed.

(** [formatDurationMs] on a duration that is not negative: the whole
    seconds of the duration, shown as minutes and seconds from one minute on
    and as seconds below. *)
Lemma formatDurationMs_shape ms :
  0 <= ms ->
  formatDurationMs ms
  = if bool_decide (60 <= ms / 1000)
    then pretty (ms / 1000 / 60) +:+ "m " +:+ pretty ((ms / 1000) `mod` 60) +:+ "s"
    else pretty (ms / 1000) +:+ "s".
Proof.
  intros Hms. unfold formatDurationMs.
  assert (H0 : 0 <= ms / 1000) by (apply Z.div_pos; lia).
  rewrite Z.max_r by done.
  rewrite Z.rem_mod_nonneg by lia.
  case_bool_decide as Hmin; case_bool_decide as Hsec; try reflexivity.
  - exfalso. assert (ms / 1000 / 60 = 0) by (apply Z.div_small; lia). lia.
  - exfalso. assert (0 < ms / 1000 / 60) by (apply Z.div_str_pos; lia). lia.
  - rewrite Z.mod_small by lia. reflexivity.
Qed.

(** C10: [/js daily] run by a player less than [DAILY_COOLDOWN_MS] (five
    minutes) after the stored claim time grants nothing, replies with the
    remaining time, returns 0 and leaves the state, hence the stored time,
    unchanged; the reply shows the remaining time rounded down to whole
    seconds, as [m] minutes and [s] seconds with [s] below 60, the minutes
    being left out when there are none.  Run with no stored time, or at or
    after the cooldown, it grants three emeralds and a golden apple, stores
    the current time as the claim time and returns 1. *)
Theorem C10_daily_cooldown (player : Player) (sender : string) (now : Z) (st : ModState) :
  let src := mkSource sender (Some player) in
  let o := js_daily src now st in
  DAILY_COOLDOWN_MS = 300000
  /\ (forall last,
        dailyClaims st !! uuid player = Some last ->
        now - last < DAILY_COOLDOWN_MS ->
        items_given (uuid player) (effects o) = []
        /\ (exists m s,
              0 <= m /\ 0 <= s < 60
              /\ (60 * m + s) * 1000 <= DAILY_COOLDOWN_MS - (now - last)
                 < (60 * m + s + 1) * 1000
              /\ effects o
                 = [SendFeedback
                      ("🎁 Daily reward available in "
                       +:+ (if bool_decide (0 < m)
                            then pretty m +:+ "m " +:+ pretty s +:+ "s"
                            else pretty s +:+ "s")
                       +:+ ".")])
        /\ result o = Returned 0
        /\ state o = st)
  /\ (dailyClaims st !! uuid player = None
      \/ (exists last, dailyClaims st !! uuid player = Some last
                       /\ DAILY_COOLDOWN_MS <= now - last) ->
      items_given (uuid player) (effects o) = [("EMERALD", 3); ("GOLDEN_APPLE", 1)]
      /\ dailyClaims (state o) = <[uuid player := now]> (dailyClaims st)
      /\ result o = Returned 1).
Proof.
  intros src o. split; [reflexivity|]. subst o src. unfold js_daily. simpl. split.
  - intros last Hlast Hlt. rewrite Hlast. rewrite bool_decide_eq_true_2 by done.
    split; [reflexivity|]. split; [|split; reflexivity].
    set (remaining := DAILY_COOLDOWN_MS - (now - last)) in *.
    assert (Hpos : 0 <= remaining) by (subst remaining; lia).
    pose proof (Z.div_pos remaining 1000 Hpos ltac:(lia)) as Hsec.
    pose proof (Z.div_mod remaining 1000 ltac:(lia)) as Hdm.
    pose proof (Z.mod_pos_bound remaining 1000 ltac:(lia)) as Hmb.
    pose proof (Z.div_mod (remaining / 1000) 60 ltac:(lia)) as Hdm2.
    pose proof (Z.mod_pos_bound (remaining / 1000) 60 ltac:(lia)) as Hmb2.
    pose proof (Z.div_pos (remaining / 1000) 60 Hsec ltac:(lia)) as Hmin.
    exists (remaining / 1000 / 60), ((remaining / 1000) `mod` 60).
    split; [done|]. split; [done|]. split; [lia|].
    cbn [ret effects]. rewrite (formatDurationMs_shape remaining Hpos).
    case_bool_decide as H60; case_bool_decide as Hm; try reflexivity.
    + exfalso. lia.
    + exfalso. lia.
    + rewrite Z.mod_small by lia. reflexivity.
  - intros [Hnone|(last & Hlast & Hge)].
    + rewrite Hnone. simpl. rewrite !bool_decide_eq_true_2 by done. repeat split.
    + rewrite Hlast. rewrite bool_decide_eq_false_2 by lia. simpl.
      rewrite !bool_decide_eq_true_2 by done. repeat split.
Qed.

(** Steve claims at time 1000 and asks again one minute later. *)
Lemma C10_witness :
  let st1 := state (js_daily as_steve 1000 initial_state) in
  dailyClaims st1 !! uuid steve = Some 1000
  /\ 61000 - 1000 < DAILY_COOLDOWN_MS
  /\ effects (js_daily as_steve 61000 st1)
     = [SendFeedback "🎁 Daily reward available in 4m 0s."]
  /\ result (js_daily as_steve 61000 st1) = Returned 0.
Proof.
  intros st1.
  assert (H1 : dailyClaims st1 !! uuid steve = Some 1000) by (vm_compute; reflexivity).
  assert (H2 : 61000 - 1000 < DAILY_COOLDOWN_MS) by (vm_compute; reflexivity).
  split; [exact H1|]. split; [exact H2|].
  destruct (C10_daily_cooldown steve "Steve" 61000 st1) as (Hcd & Hwait & _).
  destruct (Hwait 1000 H1 H2) as (_ & (m & s & Hm & Hs & Hrem & Hfx) & Hres & _).
  change as_steve with (mkSource "Steve" (Some steve)).
  split; [|exact Hres]. rewrite Hfx. rewrite Hcd in Hrem.
  assert (m = 4) as -> by lia. assert (s = 0) as -> by lia.
  vm_compute. reflexivity.
Defined.

(** C2, as stated, fails: the sample mod's standalone [/kit] and its
    [/js kit] grant their items on every invocation by a player; nothing
    records a grant and no reset exists. *)
Lemma C2_counterexample :
  let first := kit as_steve initial_state in
  let second := kit as_steve (state first) in
  let third := js_kit as_steve (state second) in
  let fourth := js_kit as_steve (state third) in
  items_given (uuid steve) (effects first)
    = [("IRON_SWORD", 1); ("IRON_PICKAXE", 1); ("IRON_AXE", 1); ("BREAD", 16);
       ("TORCH", 32); ("OAK_PLANKS", 64); ("CRAFTING_TABLE", 1); ("FURNACE", 1)]
  /\ items_given (uuid steve) (effects second)
     = items_given (uuid steve) (effects first)
  /\ items_given (uuid steve) (effects third)
     = [("DIAMOND_SWORD", 1); ("DIAMOND_PICKAXE", 1); ("COOKED_BEEF", 32);
        ("TORCH", 64); ("OAK_PLANKS", 64)]
  /\ items_given (uuid steve) (effects fourth)
     = items_given (uuid steve) (effects third).
Proof. vm_compute. repeat split. Qed.






End SampleCommands.

(* ===================================================================== *)
(** * Properties of the example mods                                       *)
(* ===================================================================== *)

Section ExampleMods.
Import Api.

(** The loading pattern does what [falls_back] says. *)
Lemma load_mapping_falls_back tag raw first last :
  falls_back (let '(m, warnings) := load_mapping tag raw in
              mkLoaded m ([first] ++ warnings ++ [last]))
             raw tag first last.
Proof.
  unfold falls_back, load_mapping.
  destruct (Js.parse_stringify raw) as [e|v]; simpl.
  - repeat split; intros; simplify_eq; done.
  - repeat split; intros; simplify_eq.
    all: match goal with H : Js.truthy _ = _ |- _ => rewrite H end; done.
Qed.

(** C3, as stated, fails: when [loadData] returns [null] the conversion
    yields [null], the mapping becomes the empty object, and the log holds the
    two progress lines only: no warning is logged. *)
Lemma C3_counterexample :
  let init := SpawnKit.onInitialize (fun _ _ => Js.VNull) in
  Js.parse_stringify Js.VNull = inr Js.VNull
  /\ mapping init = Js.VObj []
  /\ log init = ["§6[SpawnKit] Loading Spawn Kit mod..."; "§a✓ Spawn Kit mod loaded!"].
Proof. vm_compute. repeat split. Qed.

(** C3, amended: in each of the three example mods, whatever [loadData]
    returns, initialization returns; when the conversion throws, the warning
    is logged and the mapping is the empty object; when it yields a falsy
    value such as [null], the mapping is the empty object and nothing is
    logged about it; a truthy value is kept as the mapping. *)
Theorem C3_load_falls_back_to_empty (loadData : string -> Js.Value -> Js.Value) :
  falls_back (SpawnKit.onInitialize loadData)
             (loadData "kit_received" (Js.VObj []))
             "[SpawnKit] Failed to parse received data: "
             "§6[SpawnKit] Loading Spawn Kit mod..." "§a✓ Spawn Kit mod loaded!"
  /\ falls_back (PlayerTracker.onInitialize loadData)
                (loadData "player_activity" (Js.VObj []))
                "[PlayerTracker] Failed to parse activity: "
                "§6[PlayerTracker] Loading Player Tracker mod..."
                "§a✓ Player Tracker mod loaded!"
  /\ falls_back (TeleportHome.onInitialize loadData)
                (loadData "homes" (Js.VObj []))
                "[TeleportHome] Failed to parse homes: "
                "§6[TeleportHome] Loading Teleport Home mod..."
                "§a✓ Teleport Home mod loaded!".
Proof.
  split; [|split]; apply load_mapping_falls_back.
Qed.

(** Storage that holds [undefined] under every key: the conversion throws. *)
Lemma C3_witness :
  Js.parse_stringify Js.VUndefined
    = inl "SyntaxError: Unexpected token u in JSON at position 0"
  /\ mapping (SpawnKit.onInitialize (fun _ _ => Js.VUndefined)) = Js.VObj []
  /\ log (SpawnKit.onInitialize (fun _ _ => Js.VUndefined))
     = [ "§6[SpawnKit] Loading Spawn Kit mod...";
         "[SpawnKit] Failed to parse received data: "
           +:+ "SyntaxError: Unexpected token u in JSON at position 0";
         "§a✓ Spawn Kit mod loaded!" ].
Proof.
  assert (H : Js.parse_stringify Js.VUndefined
              = inl "SyntaxError: Unexpected token u in JSON at position 0")
    by reflexivity.
  split; [exact H|].
  destruct (C3_load_falls_back_to_empty (fun _ _ => Js.VUndefined)) as ((Hthrow & _) & _).
  exact (Hthrow _ H).
Defined.

(** ** Spawn Kit: one grant per player until a reset *)

Lemma granted_to_app name (o1 o2 : list (Effect SpawnKit.Received)) :
  SpawnKit.granted_to name (o1 ++ o2)
  = SpawnKit.granted_to name o1 ++ SpawnKit.granted_to name o2.
Proof. unfold SpawnKit.granted_to. apply omap_app. Qed.

Lemma granted_starter_kit name :
  SpawnKit.granted_to name (concat (map (SpawnKit.give_kit_item name) SpawnKit.starterKit))
  = SpawnKit.starterKit.
Proof.
  unfold SpawnKit.starterKit, SpawnKit.give_kit_item, SpawnKit.granted_to. simpl.
  rewrite !bool_decide_eq_true_2 by done. reflexivity.
Qed.

Lemma has_received_insert_ne received name q t :
  q <> name ->
  SpawnKit.has_received (<[q := t]> received) name = SpawnKit.has_received received name.
Proof. intros Hne. unfold SpawnKit.has_received, Js.get. by rewrite lookup_insert_ne. Qed.

Lemma has_received_delete_ne (received : gmap string Z) name q :
  q <> name ->
  SpawnKit.has_received (delete q received) name = SpawnKit.has_received received name.
Proof. intros Hne. unfold SpawnKit.has_received, Js.get. by rewrite lookup_delete_ne. Qed.

Lemma has_received_insert (received : gmap string Z) name t :
  t <> 0 -> SpawnKit.has_received (<[name := t]> received) name = true.
Proof.
  intros Ht. unfold SpawnKit.has_received, Js.get. rewrite lookup_insert_eq.
  apply negb_true_iff, Z.eqb_neq, Ht.
Qed.

Lemma has_received_delete (received : gmap string Z) name :
  Js.inherited name = false -> SpawnKit.has_received (delete name received) name = false.
Proof.
  intros Hinh. unfold SpawnKit.has_received, Js.get. by rewrite lookup_delete_eq, Hinh.
Qed.

(** One invocation neither grants to a player who has the kit nor makes
    that player lose it, unless it is a reset aimed at that player. *)
Lemma execute_blocked host name c received :
  SpawnKit.has_received received name = true ->
  ~ SpawnKit.resets name c ->
  SpawnKit.granted_to name (snd (SpawnKit.execute host c received)) = []
  /\ SpawnKit.has_received (fst (SpawnKit.execute host c received)) name = true.
Proof.
  intros Hhas Hnr. destruct c as [ctx now|ctx]; simpl.
  - unfold SpawnKit.kit. destruct (is_player ctx); cbn [negb fst snd]; [|done].
    destruct (SpawnKit.has_received received (playerName ctx)) eqn:Hq;
      cbn [fst snd]; [done|].
    assert (Hne : playerName ctx <> name) by (intros Heq; rewrite Heq in Hq; congruence).
    split; [|by rewrite has_received_insert_ne].
    unfold SpawnKit.starterKit, SpawnKit.give_kit_item, SpawnKit.granted_to. simpl.
    by rewrite !bool_decide_eq_false_2.
  - unfold SpawnKit.kitreset. simpl in Hnr.
    destruct (SpawnKit.has_received received (key_of (arg_player ctx))); simpl; [|done].
    split; [done|]. by rewrite has_received_delete_ne.
Qed.

Lemma run_blocked host name cs : forall received,
  SpawnKit.has_received received name = true ->
  Forall (fun c => ~ SpawnKit.resets name c) cs ->
  SpawnKit.granted_to name (snd (SpawnKit.run host cs received)) = []
  /\ SpawnKit.has_received (fst (SpawnKit.run host cs received)) name = true.
Proof.
  induction cs as [|c cs IH]; intros received Hhas Hcs; simpl; [done|].
  apply Forall_cons in Hcs as [Hc Hcs].
  destruct (execute_blocked host name c received Hhas Hc) as [Hg Hh].
  destruct (SpawnKit.execute host c received) as [r1 out1]. simpl in *.
  destruct (IH r1 Hh Hcs) as [Hg' Hh'].
  destruct (SpawnKit.run host cs r1) as [r2 out2]. simpl in *.
  by rewrite granted_to_app, Hg, Hg'.
Qed.

(** C2, amended: in the spawn-kit mod, [/kit] run by a player that has not
    the kit grants the seven stacks of [starterKit] and records the player
    (the clock reading is not 0); from then on, whatever commands run, as
    long as none is a [/kitreset] aimed at that player, the player is granted
    nothing and [/kit] replies that the kit was already received; after a
    [/kitreset] aimed at the player, [/kit] grants once more. *)
Theorem C2_spawn_kit_grants_once (host : Host) (name : string) :
  (forall ctx now received,
     is_player ctx = true -> playerName ctx = name -> now <> 0 ->
     SpawnKit.has_received received name = false ->
     SpawnKit.granted_to name (snd (SpawnKit.kit host ctx now received))
       = SpawnKit.starterKit
     /\ SpawnKit.has_received (fst (SpawnKit.kit host ctx now received)) name = true)
  /\ (forall cs received,
        SpawnKit.has_received received name = true ->
        Forall (fun c => ~ SpawnKit.resets name c) cs ->
        SpawnKit.granted_to name (snd (SpawnKit.run host cs received)) = []
        /\ SpawnKit.has_received (fst (SpawnKit.run host cs received)) name = true)
  /\ (forall ctx now received,
        is_player ctx = true -> playerName ctx = name ->
        SpawnKit.has_received received name = true ->
        SpawnKit.kit host ctx now received
        = (received,
           [ Reply "§cYou've already received your starter kit!";
             Reply ("§7Received on: " +:+ SpawnKit.received_date host received name) ]))
  /\ (forall ctx ctx' now now' received,
        is_player ctx = true -> playerName ctx = name -> now <> 0 -> now' <> 0 ->
        Js.inherited name = false ->
        SpawnKit.has_received received name = false ->
        key_of (arg_player ctx') = name ->
        let r1 := fst (SpawnKit.kit host ctx now received) in
        let r2 := fst (SpawnKit.kitreset ctx' r1) in
        SpawnKit.has_received r2 name = false
        /\ SpawnKit.granted_to name (snd (SpawnKit.kit host ctx now' r2))
           = SpawnKit.starterKit).
Proof.
  assert (Hgrant : forall ctx now received,
     is_player ctx = true -> playerName ctx = name -> now <> 0 ->
     SpawnKit.has_received received name = false ->
     SpawnKit.kit host ctx now received
     = (<[name := now]> received,
        [Reply "§6=== Starter Kit ==="]
        ++ concat (map (SpawnKit.give_kit_item name) SpawnKit.starterKit)
        ++ [ SaveData "kit_received" (<[name := now]> received);
             SpawnParticle "minecraft:happy_villager"
               (Some (x (getPlayer host name))) (Some (y (getPlayer host name) + 1)%Q)
               (Some (z (getPlayer host name))) 50;
             PlaySound "minecraft:entity.player.levelup"
               (Some (x (getPlayer host name))) (Some (y (getPlayer host name)))
               (Some (z (getPlayer host name)));
             Reply "§a✓ Starter kit received!" ])).
  { intros ctx now received Hp Hn _ Hhas. unfold SpawnKit.kit.
    rewrite Hp. cbn [negb]. cbv zeta. rewrite Hn, Hhas. reflexivity. }
  assert (Hitems : forall ctx now received,
     is_player ctx = true -> playerName ctx = name -> now <> 0 ->
     SpawnKit.has_received received name = false ->
     SpawnKit.granted_to name (snd (SpawnKit.kit host ctx now received))
       = SpawnKit.starterKit
     /\ SpawnKit.has_received (fst (SpawnKit.kit host ctx now received)) name = true).
  { intros ctx now received Hp Hn Hnow Hhas. rewrite (Hgrant ctx now received) by done.
    cbn [fst snd]. split; [|by apply has_received_insert].
    rewrite !granted_to_app, granted_starter_kit. reflexivity. }
  split; [exact Hitems|]. split; [apply run_blocked|]. split.
  - intros ctx now received Hp Hn Hhas. unfold SpawnKit.kit.
    rewrite Hp. cbn [negb]. cbv zeta. by rewrite Hn, Hhas.
  - intros ctx ctx' now now' received Hp Hn Hnow Hnow' Hinh Hhas Hkey r1 r2.
    assert (Hr1 : r1 = <[name := now]> received).
    { subst r1. by rewrite (Hgrant ctx now received). }
    assert (Hr2 : r2 = delete name r1).
    { subst r2. unfold SpawnKit.kitreset. rewrite Hkey, Hr1.
      by rewrite has_received_insert. }
    assert (Hfree : SpawnKit.has_received r2 name = false).
    { rewrite Hr2. by apply has_received_delete. }
    split; [exact Hfree|]. by apply Hitems.
Qed.

(** Alex has the kit since time 1000; Alex asks again and a reset is aimed
    at Bob: Alex is granted nothing. *)
Lemma C2_witness :
  let received : gmap string Z := <["Alex" := 1000]> ∅ in
  let cs := [SpawnKit.Kit (by_player "Alex") 2000; SpawnKit.KitReset (by_console "Bob")] in
  SpawnKit.has_received received "Alex" = true
  /\ SpawnKit.granted_to "Alex" (snd (SpawnKit.run sample_host cs received)) = [].
Proof.
  intros received cs.
  assert (H1 : SpawnKit.has_received received "Alex" = true) by (vm_compute; reflexivity).
  split; [exact H1|].
  destruct (C2_spawn_kit_grants_once sample_host "Alex") as (_ & Hblocked & _).
  refine (proj1 (Hblocked cs received H1 _)).
  repeat constructor; simpl; [tauto|discriminate].
Defined.

(** ** Every change of a persisted mapping is saved *)





(** ** Failed preconditions *)



(** ** Player Tracker: a name inherited from [Object.prototype] *)

(** C6, the failing input: a command event of a player named
    "constructor" on the empty mapping.  [activity["constructor"]] reads the
    inherited built-in, which is truthy, so no record is created and the
    mapping saved afterwards is still empty; the same event of a player named
    "Steve" creates the key. *)
Lemma C6_tracker_misses_inherited_name :
  let observed name :=
    PlayerTracker.onCommandExecute (PlayerTracker.mkEvent name "/kit") 1000 1001 ∅ in
  fst (observed "constructor") = ∅
  /\ snd (observed "constructor") = [SaveData "player_activity" ∅]
  /\ fst (observed "Steve")
     = <["Steve" := PlayerTracker.mkActivity 1 (Some "/kit") (Some 1001) 1000]> ∅.
Proof. repeat split. Qed.


(** X13: in the spawn-kit mod the keys of [received] are the holders of
    the kit: a name is a key iff its player claimed the kit and no later
    [/kitreset] was aimed at it (names [Object.prototype] defines never
    become keys). *)
Lemma spawn_kit_keys host cs : forall (received : gmap string Z),
  map_Forall (fun _ t => t <> 0) received ->
  SpawnKit.clocks_nonzero cs ->
  dom (fst (SpawnKit.run host cs received)) = SpawnKit.holders cs (dom received).
Proof.
  induction cs as [|c cs IH]; intros received Hnz Hclocks; [done|].
  apply Forall_cons in Hclocks as [Hc Hclocks].
  assert (Hstep : map_Forall (fun _ t => t <> 0) (fst (SpawnKit.execute host c received))
                  /\ SpawnKit.holders (c :: cs) (dom received)
                     = SpawnKit.holders cs (dom (fst (SpawnKit.execute host c received)))).
  { destruct c as [ctx now|ctx]; simpl.
    - unfold SpawnKit.kit. destruct (is_player ctx); cbn [negb fst andb]; [|done].
      unfold SpawnKit.has_received, Js.get.
      destruct (received !! playerName ctx) as [t|] eqn:Hown.
      + rewrite (proj2 (negb_true_iff _) (proj2 (Z.eqb_neq _ _) (Hnz _ _ Hown))).
        cbn [fst]. split; [done|]. f_equal.
        assert (playerName ctx ∈ dom received) by (apply elem_of_dom; by eexists).
        destruct (Js.inherited (playerName ctx)); cbn [negb]; [done|].
        apply set_eq. intros k. rewrite elem_of_union, elem_of_singleton.
        split; [intros [->|?]; done|by right].
      + destruct (Js.inherited (playerName ctx)); cbn [negb fst]; [done|].
        split; [by apply map_Forall_insert_2|]. by rewrite dom_insert_L.
    - unfold SpawnKit.kitreset, SpawnKit.has_received, Js.get.
      destruct (received !! key_of (arg_player ctx)) as [t|] eqn:Hown.
      + rewrite (proj2 (negb_true_iff _) (proj2 (Z.eqb_neq _ _) (Hnz _ _ Hown))).
        cbn [negb fst]. split; [by apply map_Forall_delete|]. by rewrite dom_delete_L.
      + assert (Hnot : key_of (arg_player ctx) ∉ dom received) by (by apply not_elem_of_dom).
        destruct (Js.inherited (key_of (arg_player ctx))); cbn [negb fst].
        * split; [by apply map_Forall_delete|]. by rewrite dom_delete_L.
        * split; [done|]. f_equal. apply set_eq. intros k.
          rewrite elem_of_difference, elem_of_singleton.
          split; [intros [? ?]; done|]. intros Hk. split; [done|]. by intros ->. }
  destruct Hstep as [Hnz' Hh]. rewrite Hh. cbn [SpawnKit.run].
  destruct (SpawnKit.execute host c received) as [r1 out1]. cbn [fst] in *.
  specialize (IH r1 Hnz' Hclocks).
  destruct (SpawnKit.run host cs r1) as [r2 out2]. exact IH.
Qed.

End ExampleMods.

(* ===================================================================== *)
(** * Properties of the version selector                                   *)
(* ===================================================================== *)

Section Selector.
Import VersionSelector.

(** Scanning one more entry is one more visit. *)
Lemma scan_snoc config v key currentPath :
  scan (config ++ [v]) key currentPath
  = visit key currentPath (scan config key currentPath) (length config, v).
Proof.
  unfold scan. rewrite imap_app, fold_left_app. simpl. by rewrite Nat.add_0_r.
Qed.

Lemma matches_at_snoc config v key currentPath j :
  matches_at (config ++ [v]) key currentPath j
  <-> matches_at config key currentPath j
      \/ (j = length config
          /\ exists pageHref, page_href v key = Some pageHref
                              /\ Str.endsWith currentPath (href_path pageHref) = true).
Proof.
  unfold matches_at. split.
  - intros (w & href & Hl & Hh & He).
    apply lookup_app_Some in Hl as [Hl|[Hge Hl]].
    + left. by exists w, href.
    + right. apply list_lookup_singleton_Some in Hl as [Hj ->].
      split; [lia|]. by exists href.
  - intros [(w & href & Hl & Hh & He)|(-> & href & Hh & He)].
    + exists w, href. split; [|done]. by apply lookup_app_l_Some.
    + exists v, href. split; [|done]. rewrite lookup_app_r by lia.
      by rewrite Nat.sub_diag.
Qed.

Lemma matches_at_lt config key currentPath j :
  matches_at config key currentPath j -> (j < length config)%nat.
Proof. intros (w & href & Hl & _). by eapply lookup_lt_Some. Qed.

(** The scan leaves in [currentIndex] the last matching index, or 0. *)
Lemma scan_last_match config key currentPath :
  let r := scan config key currentPath in
  (forall j, matches_at config key currentPath j ->
     (j <= snd r)%nat /\ matches_at config key currentPath (snd r))
  /\ ((forall j, ~ matches_at config key currentPath j) -> snd r = O)
  /\ (Forall (fun v => is_Some (page_href v key)) config ->
      length (fst r) = length config).
Proof.
  induction config as [|v config IH] using rev_ind; simpl.
  - split; [|split]; [|done|done]. intros j (w & href & Hl & _). done.
  - destruct IH as (IHm & IHn & IHl). rewrite scan_snoc.
    set (r := scan config key currentPath) in *. unfold visit. cbn [fst snd].
    destruct (page_href v key) as [href|] eqn:Hhref.
    + cbn [fst snd]. destruct (Str.endsWith currentPath (href_path href)) eqn:Hends.
      * split; [|split].
        -- intros j Hj. split.
           ++ apply matches_at_lt in Hj. rewrite length_app in Hj. simpl in Hj. lia.
           ++ apply matches_at_snoc. right. split; [done|]. by exists href.
        -- intros Hnone. exfalso. apply (Hnone (length config)).
           apply matches_at_snoc. right. split; [done|]. by exists href.
        -- intros Hall. apply Forall_app in Hall as [Hall _].
           rewrite !length_app, IHl by done. done.
      * split; [|split].
        -- intros j Hj. apply matches_at_snoc in Hj as [Hj|(_ & href' & Hh' & He')].
           ++ destruct (IHm j Hj) as [Hle Hm]. split; [done|].
              apply matches_at_snoc. by left.
           ++ congruence.
        -- intros Hnone. apply IHn. intros j Hj. apply (Hnone j).
           apply matches_at_snoc. by left.
        -- intros Hall. apply Forall_app in Hall as [Hall _].
           rewrite !length_app, IHl by done. done.
    + split; [|split].
      * intros j Hj. apply matches_at_snoc in Hj as [Hj|(_ & href' & Hh' & _)].
        -- destruct (IHm j Hj) as [Hle Hm]. split; [done|].
           apply matches_at_snoc. by left.
        -- congruence.
      * intros Hnone. apply IHn. intros j Hj. apply (Hnone j).
        apply matches_at_snoc. by left.
      * intros Hall. apply Forall_app in Hall as [_ Hv].
        inversion Hv as [|? ? Hv' _]. cbv beta in Hv'. rewrite Hhref in Hv'.
        by destruct Hv'.
Qed.

Lemma version_config_has_pages key :
  Forall (fun v => is_Some (page_href v key)) VERSION_CONFIG.
Proof. destruct key; repeat constructor; by eexists. Qed.

(** C7, as stated, fails: on the page of the v1.0.0 API reference the
    entry "main" (index 0, page path "/index.html") is a suffix of the
    location path, and the selected index is 1. *)
Lemma C7_counterexample :
  matches VERSION_CONFIG api (pathname v1_api_page) 0
  /\ matches VERSION_CONFIG api (pathname v1_api_page) 1
  /\ match initThreadJsVersionSelector (Some api_options) v1_api_page with
     | inr page' => selectedIndex <$> selects page' !! "versionSelect"
     | inl _ => None
     end = Some 1.
Proof.
  split; [|split].
  - eexists _, _. repeat split; vm_compute; reflexivity.
  - eexists _, _. repeat split; vm_compute; reflexivity.
  - vm_compute. reflexivity.
Qed.

(** C7, amended: after the initializer ran, the selected index is the
    index of the last entry of the version table whose page path for the page
    key, prefixed with "/" and with trailing slashes stripped, is a suffix of
    the location path stripped of trailing slashes (no matching entry has a
    greater index); when no entry matches, the selected index is 0.  This
    holds whatever options the [<select>] held before the call. *)
Theorem C7_selected_index_is_last_match (o : Options) (page : Page) (selId : string)
    (sel : Select) :
  selectId o = Some selId ->
  selects page !! selId = Some sel ->
  exists page' sel',
    initThreadJsVersionSelector (Some o) page = inr page'
    /\ selects page' !! selId = Some sel'
    /\ (forall j, matches VERSION_CONFIG (pageKey o) (pathname page) j ->
          Z.of_nat j <= selectedIndex sel'
          /\ matches VERSION_CONFIG (pageKey o) (pathname page)
                     (Z.to_nat (selectedIndex sel')))
    /\ ((forall j, ~ matches VERSION_CONFIG (pageKey o) (pathname page) j) ->
        selectedIndex sel' = 0).
Proof.
  intros Hid Hsel.
  unfold initThreadJsVersionSelector, init_with. rewrite Hid, Hsel.
  pose proof (scan_last_match VERSION_CONFIG (pageKey o)
                (Str.strip_trailing_slashes (pathname page))) as Hscan.
  destruct (scan VERSION_CONFIG (pageKey o) (Str.strip_trailing_slashes (pathname page)))
    as [added currentIndex] eqn:Hs.
  cbn [fst snd] in Hscan. destruct Hscan as (Hlast & Hnone & Hlen).
  specialize (Hlen (version_config_has_pages (pageKey o))).
  eexists _, _. split; [reflexivity|]. cbn [selects]. split; [apply lookup_insert_eq|].
  unfold set_selectedIndex. cbn [options selectedIndex]. rewrite length_app, Hlen.
  split.
  - intros j Hj. destruct (Hlast j Hj) as [Hle Hm].
    pose proof (matches_at_lt _ _ _ _ Hm) as Hlt.
    rewrite bool_decide_eq_true_2 by lia. rewrite Nat2Z.id. split; [lia|exact Hm].
  - intros Hno. rewrite (Hnone Hno). rewrite bool_decide_eq_true_2 by (simpl; lia).
    reflexivity.
Qed.

Lemma C7_witness :
  selectId api_options = Some "versionSelect"
  /\ exists page' sel',
       initThreadJsVersionSelector (Some api_options) v1_api_page = inr page'
       /\ selects page' !! "versionSelect" = Some sel'
       /\ matches VERSION_CONFIG api (pathname v1_api_page)
                  (Z.to_nat (selectedIndex sel')).
Proof.
  split; [reflexivity|].
  destruct (C7_selected_index_is_last_match api_options v1_api_page "versionSelect"
              (mkSelect [] (-1)) eq_refl eq_refl)
    as (page' & sel' & Hinit & Hsel & Hlast & _).
  exists page', sel'. split; [exact Hinit|]. split; [exact Hsel|].
  refine (proj2 (Hlast O _)).
  eexists _, _. repeat split; vm_compute; reflexivity.
Defined.

(** C8: when the selection changes, the listener looks up the first entry
    of the table whose id is the value of the selected option; if that entry
    defines a page path for the page key, exactly this stored path is
    assigned to [window.location.href]; if no entry has that id, or the entry
    defines no path for the page key, the location is left as it was. *)
Theorem C8_change_navigates_to_stored_path (config : list Version) (key : PageKey)
    (selId : string) (i : nat) (page : Page) (sel : Select) :
  selects page !! selId = Some sel ->
  let chosen := select_value (set_selectedIndex i sel) in
  let page' := change config key selId i page in
  (forall idx v target,
     config !! idx = Some v -> id v = chosen ->
     (forall j v', (j < idx)%nat -> config !! j = Some v' -> id v' <> chosen) ->
     pages v key = Some target -> target <> "" ->
     href_assigned page' = Some target)
  /\ ((forall v, v ∈ config -> id v <> chosen) ->
      href_assigned page' = href_assigned page)
  /\ (forall idx v,
        config !! idx = Some v -> id v = chosen ->
        (forall j v', (j < idx)%nat -> config !! j = Some v' -> id v' <> chosen) ->
        pages v key = None \/ pages v key = Some "" ->
        href_assigned page' = href_assigned page).
Proof.
  intros Hsel chosen page'. subst page'. unfold change. rewrite Hsel.
  fold chosen. unfold on_change.
  split; [|split].
  - intros idx v target Hl Hid Hfirst Hpage Hne.
    assert (Hfind : list_find (fun v => id v = chosen) config = Some (idx, v)).
    { apply list_find_Some. split; [done|]. split; [done|].
      intros j v' Hj Hlt. by eapply Hfirst. }
    rewrite Hfind. unfold page_href. rewrite Hpage.
    destruct (String.eqb_spec target "") as [|_]; [done|]. reflexivity.
  - intros Hnone.
    destruct (list_find (fun v => id v = chosen) config) as [[idx v]|] eqn:Hfind; [|done].
    apply list_find_Some in Hfind as (Hl & Hid & _).
    exfalso. eapply Hnone; [|exact Hid]. by eapply list_elem_of_lookup_2.
  - intros idx v Hl Hid Hfirst Hpage.
    assert (Hfind : list_find (fun v => id v = chosen) config = Some (idx, v)).
    { apply list_find_Some. split; [done|]. split; [done|].
      intros j v' Hj Hlt. by eapply Hfirst. }
    rewrite Hfind. unfold page_href. by destruct Hpage as [-> | ->].
Qed.

(** On the initialized page of the v1.0.0 API reference the user picks the
    first option, "main": the location is set to "index.html". *)
Lemma C8_witness :
  match initThreadJsVersionSelector (Some api_options) v1_api_page with
  | inr page =>
      href_assigned (change VERSION_CONFIG api "versionSelect" 0 page) = Some "index.html"
  | inl _ => False
  end.
Proof.
  destruct (initThreadJsVersionSelector (Some api_options) v1_api_page)
    as [w|page] eqn:Hinit; [vm_compute in Hinit; discriminate|].
  assert (Hpage : page = mkPage
            {["versionSelect" := mkSelect [("main", "main (latest)"); ("v1.0.0", "v1.0.0")] 1]}
            {["versionNote" := "Snapshot of the API for ThreadJS v1.0.0."]}
            "/ThreadJS/v1.0.0/index.html" None).
  { vm_compute in Hinit. injection Hinit as <-. vm_compute. reflexivity. }
  assert (Hsel : selects page !! "versionSelect"
                 = Some (mkSelect [("main", "main (latest)"); ("v1.0.0", "v1.0.0")] 1))
    by (rewrite Hpage; vm_compute; reflexivity).
  destruct (C8_change_navigates_to_stored_path VERSION_CONFIG api "versionSelect" 0
              page _ Hsel) as (Hnav & _).
  apply (Hnav O (mkVersion "main" "main (latest)"
                   "Tracking the latest code on the main branch."
                   (fun k => match k with
                             | api => Some "index.html"
                             | inspector => Some "inspector.html"
                             | examples => Some "example-mods.html"
                             end))).
  - reflexivity.
  - reflexivity.
  - intros j v' Hj. lia.
  - reflexivity.
  - discriminate.
Defined.

End Selector.

(* ===================================================================== *)
(** * Timing of scheduled tasks *)
(* ===================================================================== *)

Section SchedulerTiming.
Import SampleMod.

(** Listed task objects are told apart by their identity. *)
Lemma task_of_id (l : list Task) t t' :
  NoDup (task_ids l) -> t ∈ l -> t' ∈ l -> task_id t = task_id t' -> t = t'.
Proof.
  induction l as [|x l IH]; intros Hnd Ht Ht' Hid; [by apply elem_of_nil in Ht|].
  simpl in Hnd. apply NoDup_cons in Hnd as [Hx Hnd].
  apply elem_of_cons in Ht as [->|Ht]; apply elem_of_cons in Ht' as [->|Ht'].
  - done.
  - exfalso. apply Hx. rewrite Hid. unfold task_ids. apply list_elem_of_fmap. by exists t'.
  - exfalso. apply Hx. rewrite <- Hid. unfold task_ids. apply list_elem_of_fmap. by exists t.
  - by apply IH.
Qed.

(** One tick on a state that keeps the invariant: a listed task that is not
    yet due stays and does not run; one that is due runs. *)
Lemma tick_one server st h t :
  sched_inv st h -> t ∈ scheduledTasks st ->
  exists st' out,
    onEndTick (sweep_fuel st) server st = Some (st', out)
    /\ tickCounter st' = tickCounter st + 1
    /\ sched_inv st' (h ++ out)
    /\ (tickCounter st + 1 < tickTarget t ->
          t ∈ scheduledTasks st' /\ task_id t ∉ ran_ids out)
    /\ (tickTarget t <= tickCounter st + 1 ->
          ActionRan (task_id t) (label_of t) ∈ out
          /\ task_id t ∉ task_ids (scheduledTasks st')).
Proof.
  intros Hinv Ht.
  destruct (onEndTick_spec server st (sweep_fuel st))
    as (st' & out & burst & extra & Hrun & Hb & Htc & _ & _ & _ & _ & Hl & Hex & Hn
        & Hperm & Hran & Honly); [done|].
  exists st', (out ++ burst). split; [done|]. split; [done|].
  assert (Hinv' : sched_inv st' (h ++ out ++ burst)).
  { eapply sched_inv_extend; [done|done|]. by rewrite ran_ids_app, Hb, app_nil_r. }
  split; [done|].
  destruct Hinv as [Hnd Hlt].
  apply NoDup_app in Hnd as (_ & _ & Hndl).
  apply Forall_app in Hlt as [_ Hltl].
  split.
  - intros Hpend. split.
    + rewrite Hl. apply elem_of_app. left. apply list_elem_of_filter. split; [|done].
      unfold pending. lia.
    + rewrite ran_ids_app, Hb, app_nil_r. intros Hin.
      apply list_elem_of_omap in Hin as (e & He & Hid).
      destruct e; try discriminate. injection Hid as ->.
      destruct (Honly _ _ He) as [(t' & Ht' & Hid' & _ & Hdue)|Hfresh].
      * assert (t' = t) as -> by (by eapply task_of_id). lia.
      * rewrite Forall_forall in Hltl.
        assert (Hin : task_id t ∈ task_ids (scheduledTasks st))
          by (unfold task_ids; apply list_elem_of_fmap; by exists t).
        specialize (Hltl _ Hin). lia.
  - intros Hdue. split.
    + apply elem_of_app. left. apply Hran; [done|lia].
    + destruct Hinv' as [Hnd' _]. apply NoDup_app in Hnd' as (_ & Hdisj & _).
      apply Hdisj. rewrite !ran_ids_app. apply elem_of_app. right. apply elem_of_app. left.
      apply list_elem_of_omap. exists (ActionRan (task_id t) (label_of t)).
      split; [|done]. apply Hran; [done|lia].
Qed.

(** While the counter stays below its target, a listed task stays listed
    and does not run. *)
Lemma ticks_before server n : forall st h t,
  sched_inv st h -> t ∈ scheduledTasks st ->
  tickCounter st + Z.of_nat n < tickTarget t ->
  exists st' out,
    ticks n server st = Some (st', out)
    /\ tickCounter st' = tickCounter st + Z.of_nat n
    /\ sched_inv st' (h ++ out)
    /\ t ∈ scheduledTasks st'
    /\ task_id t ∉ ran_ids out.
Proof.
  induction n as [|n IH]; intros st h t Hinv Ht Hlt.
  - exists st, []. simpl. rewrite app_nil_r.
    split; [done|]. split; [lia|]. split; [done|]. split; [done|]. apply not_elem_of_nil.
  - destruct (tick_one server st h t Hinv Ht)
      as (st1 & out1 & Hrun & Htc & Hinv1 & Hpend & _).
    destruct Hpend as [Ht1 Hnr1]; [lia|].
    destruct (IH st1 (h ++ out1) t Hinv1 Ht1) as (st2 & out2 & Hrun2 & Htc2 & Hinv2 & Ht2 & Hnr2);
      [lia|].
    exists st2, (out1 ++ out2). simpl. rewrite Hrun, Hrun2.
    split; [done|]. split; [lia|]. split; [by rewrite app_assoc|]. split; [done|].
    rewrite ran_ids_app. intros Hin. apply elem_of_app in Hin as [Hin|Hin]; done.
Qed.

(** The tick that brings the counter to its target runs a listed task. *)
Lemma ticks_reach server n : forall st h t,
  sched_inv st h -> t ∈ scheduledTasks st ->
  tickTarget t <= tickCounter st + Z.of_nat (S n) ->
  (n = O \/ tickCounter st + Z.of_nat n < tickTarget t) ->
  exists st' out,
    ticks (S n) server st = Some (st', out)
    /\ tickCounter st' = tickCounter st + Z.of_nat (S n)
    /\ sched_inv st' (h ++ out)
    /\ ActionRan (task_id t) (label_of t) ∈ out
    /\ task_id t ∉ task_ids (scheduledTasks st').
Proof.
  induction n as [|n IH]; intros st h t Hinv Ht Hle Hlt.
  - destruct (tick_one server st h t Hinv Ht)
      as (st1 & out1 & Hrun & Htc & Hinv1 & _ & Hdue).
    destruct Hdue as [Hran Hgone]; [lia|].
    exists st1, (out1 ++ []). simpl. rewrite Hrun.
    split; [done|]. rewrite app_nil_r. split; [lia|]. split; [done|]. split; done.
  - destruct Hlt as [Hlt|Hlt]; [done|].
    destruct (tick_one server st h t Hinv Ht)
      as (st1 & out1 & Hrun & Htc & Hinv1 & Hpend & _).
    destruct Hpend as [Ht1 Hnr1]; [lia|].
    destruct (IH st1 (h ++ out1) t Hinv1 Ht1)
      as (st2 & out2 & Hrun2 & Htc2 & Hinv2 & Hran2 & Hgone2); [lia|right; lia|].
    exists st2, (out1 ++ out2).
    change (ticks (S (S n)) server st) with
      (match onEndTick (sweep_fuel st) server st with
       | None => None
       | Some (st1, out1) =>
           match ticks (S n) server st1 with
           | None => None
           | Some (st2, out2) => Some (st2, out1 ++ out2)
           end
       end).
    rewrite Hrun, Hrun2.
    split; [done|]. split; [lia|]. split; [by rewrite app_assoc|]. split; [|done].
    apply elem_of_app. by right.
Qed.


Lemma sched_inv_ran_NoDup st h out : sched_inv st (h ++ out) -> NoDup (ran_ids out).
Proof.
  intros [Hnd _]. rewrite ran_ids_app in Hnd.
  apply NoDup_app in Hnd as (Hnd & _ & _). by apply NoDup_app in Hnd as (_ & _ & Hnd).
Qed.

(** X1: a task handed to [scheduleTask] with delay [d] is run by the
    [d]-th tick that follows, and by no earlier one; with a delay of 0 or
    less it is run by the next tick.  It runs once and is then gone from the
    list. *)
Theorem scheduled_task_runs_after_its_delay (server : Server) (st : ModState)
    (h : list Effect) (d : Z) (a : Action) :
  sched_inv st h ->
  let k := Z.to_nat (Z.max 1 d) in
  let t := mkTask (next_obj st) (tickCounter st + d) a in
  (forall n, (n < k)%nat ->
     exists st' out,
       ticks n server (scheduleTask d a st) = Some (st', out)
       /\ t ∈ scheduledTasks st'
       /\ next_obj st ∉ ran_ids out)
  /\ (exists st' out,
        ticks k server (scheduleTask d a st) = Some (st', out)
        /\ tickCounter st' = tickCounter st + Z.of_nat k
        /\ ActionRan (next_obj st) (label_of t) ∈ out
        /\ NoDup (ran_ids out)
        /\ next_obj st ∉ task_ids (scheduledTasks st')).
Proof.
  intros Hinv k t.
  assert (Hinv0 : sched_inv (scheduleTask d a st) h).
  { pose proof (step_inv (Schedule d a) st _ [] h eq_refl Hinv) as H.
    by rewrite app_nil_r in H. }
  assert (Ht : t ∈ scheduledTasks (scheduleTask d a st)).
  { simpl. apply elem_of_app. right. by apply list_elem_of_singleton. }
  split.
  - intros n Hn. destruct n as [|n].
    { exists (scheduleTask d a st), []. split; [done|]. split; [done|]. apply not_elem_of_nil. }
    destruct (ticks_before server (S n) _ h t Hinv0 Ht) as (st' & out & Hrun & _ & _ & Hin & Hnr).
    { subst k t. simpl tickCounter. simpl tickTarget. lia. }
    by exists st', out.
  - destruct k as [|k'] eqn:Hk; [lia|].
    destruct (ticks_reach server k' _ h t Hinv0 Ht) as (st' & out & Hrun & Htc & Hinv' & Hran & Hgone).
    { subst t. simpl tickCounter. simpl tickTarget. lia. }
    { destruct k'; [by left|right]. subst t. simpl tickCounter. simpl tickTarget. lia. }
    exists st', out. split; [done|]. split; [done|]. split; [done|].
    split; [by eapply sched_inv_ran_NoDup|done].
Qed.

(** A task scheduled two ticks ahead on the fresh mod runs in the second tick. *)
Lemma scheduled_task_runs_after_its_delay_witness :
  sched_inv initial_state []
  /\ exists st' out,
       ticks 2 quiet_server (scheduleTask 2 (Act "ping" [] None) initial_state)
         = Some (st', out)
       /\ ActionRan 0 "ping" ∈ out.
Proof.
  assert (Hinv : sched_inv initial_state []) by (split; constructor).
  split; [exact Hinv|].
  destruct (scheduled_task_runs_after_its_delay quiet_server initial_state [] 2
              (Act "ping" [] None) Hinv) as (_ & st' & out & Hrun & _ & Hran & _).
  exists st', out. split; [exact Hrun|exact Hran].
Defined.

(** X2: the join handler schedules its particle burst 20 ticks and its tip
    100 ticks ahead: the burst runs in the 20th tick after the join and in no
    earlier one, the tip in the 100th and in no earlier one. *)
Theorem join_tasks_run_on_time (p : Player) (server tickServer : Server) (now : Z)
    (draw : nat) (st : ModState) (h : list Effect) :
  sched_inv st h ->
  let joined := fst (onPlayReady p server now draw st) in
  let burst := next_obj st in
  let tip := S (next_obj st) in
  (forall n, (n < 20)%nat ->
     exists st' out, ticks n tickServer joined = Some (st', out) /\ burst ∉ ran_ids out)
  /\ (exists st' out,
        ticks 20 tickServer joined = Some (st', out)
        /\ ActionRan burst ("spawnParticles TOTEM_OF_UNDYING at " +:+ uuid p) ∈ out
        /\ tip ∉ ran_ids out)
  /\ (forall n, (n < 100)%nat ->
        exists st' out, ticks n tickServer joined = Some (st', out) /\ tip ∉ ran_ids out)
  /\ (exists st' out,
        ticks 100 tickServer joined = Some (st', out)
        /\ ActionRan tip ("sendMessage tip to " +:+ uuid p) ∈ out).
Proof.
  intros Hinv joined burst tip.
  assert (Hinv0 : sched_inv joined (h ++ snd (onPlayReady p server now draw st))).
  { eapply (step_inv (Join p server now draw)); [|exact Hinv]. reflexivity. }
  set (t1 := mkTask burst (tickCounter st + 20) (join_particles p)).
  set (t2 := mkTask tip (tickCounter st + 100) (join_tip p)).
  assert (Ht1 : t1 ∈ scheduledTasks joined).
  { subst joined. simpl. rewrite <- app_assoc. apply elem_of_app. right. by left. }
  assert (Ht2 : t2 ∈ scheduledTasks joined).
  { subst joined. simpl. apply elem_of_app. right. by apply list_elem_of_singleton. }
  assert (Htc : tickCounter joined = tickCounter st) by done.
  split; [|split; [|split]].
  - intros n Hn.
    destruct (ticks_before tickServer n _ _ t1 Hinv0 Ht1) as (st' & out & Hrun & _ & _ & _ & Hnr).
    { rewrite Htc. simpl. lia. }
    by exists st', out.
  - destruct (ticks_reach tickServer 19 _ _ t1 Hinv0 Ht1) as (st' & out & Hrun & _ & _ & Hran & _).
    { rewrite Htc. simpl. lia. }
    { right. rewrite Htc. simpl. lia. }
    destruct (ticks_before tickServer 20 _ _ t2 Hinv0 Ht2) as (st2 & out2 & Hrun2 & _ & _ & _ & Hnr).
    { rewrite Htc. simpl. lia. }
    rewrite Hrun in Hrun2. injection Hrun2 as <- <-.
    by exists st', out.
  - intros n Hn.
    destruct (ticks_before tickServer n _ _ t2 Hinv0 Ht2) as (st' & out & Hrun & _ & _ & _ & Hnr).
    { rewrite Htc. simpl. lia. }
    by exists st', out.
  - destruct (ticks_reach tickServer 99 _ _ t2 Hinv0 Ht2) as (st' & out & Hrun & _ & _ & Hran & _).
    { rewrite Htc. simpl. lia. }
    { right. rewrite Htc. simpl. lia. }
    by exists st', out.
Qed.

(** Steve joins the fresh mod on the quiet server. *)
Lemma join_tasks_run_on_time_witness :
  sched_inv initial_state []
  /\ exists st' out,
       ticks 100 quiet_server (fst (onPlayReady steve quiet_server 0 0 initial_state))
         = Some (st', out)
       /\ ActionRan 1 "sendMessage tip to uuid-steve" ∈ out.
Proof.
  assert (Hinv : sched_inv initial_state []) by (split; constructor).
  split; [exact Hinv|].
  destruct (join_tasks_run_on_time steve quiet_server quiet_server 0 0 initial_state [] Hinv)
    as (_ & _ & _ & st' & out & Hrun & Hran).
  exists st', out. split; [exact Hrun|exact Hran].
Defined.

End SchedulerTiming.

(* ===================================================================== *)
(** * State kept by the sample mod's commands and events *)
(* ===================================================================== *)

Section SampleState.
Import SampleMod.

Ltac unfold_all_handlers :=
  unfold js_help, js_greet, js_roll, js_playtime, js_kit, js_tp, js_boom,
    js_particles, js_hand, js_top, js_heal_target, js_heal, js_gamemode,
    js_stack, js_near, js_time_set, js_time_add, js_actionbar, js_home_set,
    js_home_go, js_home_info, js_home_clear, js_warp_set, js_warp_go,
    js_warp_list, js_warp_remove, js_effect_add, js_effect_clear,
    js_weather_set, js_daily, kit, ret.

(** A tick leaves the four maps alone. *)
Lemma tick_keeps_maps fuel server st st' out :
  onEndTick fuel server st = Some (st', out) ->
  playerData st' = playerData st /\ homeData st' = homeData st
  /\ warpData st' = warpData st /\ dailyClaims st' = dailyClaims st.
Proof.
  intros Hstep. pose proof (onEndTick_some _ _ _ _ _ Hstep) as Heq.
  destruct (onEndTick_spec server st (max fuel (sweep_fuel st)))
    as (st2 & out2 & burst & extra & Hrun & _ & _ & Hpd & Hhd & Hwd & Hdc & _); [lia|].
  rewrite Hrun in Heq. by inversion Heq; subst.
Qed.

(** Each entry of the three maps is written by its own handlers only. *)
Lemma step_frame s st st' out :
  step s st = Some (st', out) ->
  (forall u, ~ writes_home u s -> homeData st' !! u = homeData st !! u)
  /\ (forall name, ~ writes_warp name s -> warpData st' !! name = warpData st !! name)
  /\ (forall u, ~ writes_session u s -> playerData st' !! u = playerData st !! u).
Proof.
  intros Hstep. destruct s as [p server now draw|p now|fuel server|d a|src server c];
    simpl in Hstep.
  - inversion Hstep; subst; clear Hstep. simpl. repeat split; try done.
    intros u Hu. simpl in Hu. by rewrite lookup_insert_ne.
  - inversion Hstep; subst; clear Hstep. simpl. repeat split; try done.
    intros u Hu. simpl in Hu. by rewrite lookup_delete_ne.
  - destruct (tick_keeps_maps _ _ _ _ _ Hstep) as (-> & -> & -> & _). done.
  - inversion Hstep; subst; clear Hstep. done.
  - inversion Hstep; subst; clear Hstep. split; [|split].
    + intros u Hu.
      destruct c; simpl; unfold_all_handlers;
        try (clear Hu; repeat case_match; simpl; done).
      * destruct (src_player src) as [p|] eqn:Hp; simpl; [|done].
        rewrite lookup_insert_ne; [done|]. intros <-. apply Hu. simpl. by rewrite Hp.
      * destruct (src_player src) as [p|] eqn:Hp; simpl; [|done].
        rewrite lookup_delete_ne; [done|]. intros <-. apply Hu. simpl. by rewrite Hp.
    + intros name Hn.
      destruct c; simpl; unfold_all_handlers;
        try (clear Hn; repeat case_match; simpl; done).
      * destruct (src_player src) as [p|] eqn:Hp; simpl; [|done].
        rewrite lookup_insert_ne; [done|]. intros Heq. apply Hn. simpl.
        rewrite Hp. split; [by eexists|done].
      * match goal with
        | |- context [warpData st !! ?k] => destruct (warpData st !! k) eqn:Hl
        end; simpl; [|done].
        rewrite lookup_delete_ne; [done|]. intros Heq. by apply Hn.
    + intros u Hu. clear Hu. destruct c; simpl; unfold_all_handlers;
        repeat case_match; simpl; done.
Qed.

Lemma run_frame steps : forall st st' out,
  run steps st = Some (st', out) ->
  (forall u, Forall (fun s => ~ writes_home u s) steps ->
     homeData st' !! u = homeData st !! u)
  /\ (forall name, Forall (fun s => ~ writes_warp name s) steps ->
        warpData st' !! name = warpData st !! name)
  /\ (forall u, Forall (fun s => ~ writes_session u s) steps ->
        playerData st' !! u = playerData st !! u).
Proof.
  induction steps as [|s rest IH]; intros st st' out Hrun; simpl in Hrun.
  - by inversion Hrun; subst.
  - destruct (step s st) as [[st1 out1]|] eqn:Hstep; [|done].
    destruct (run rest st1) as [[st2 out2]|] eqn:Hrest; [|done].
    inversion Hrun; subst; clear Hrun.
    destruct (step_frame _ _ _ _ Hstep) as (Hh & Hw & Hs).
    destruct (IH _ _ _ Hrest) as (Hh' & Hw' & Hs').
    split; [|split]; intros k Hall; apply Forall_cons in Hall as [Hk Hall].
    + by rewrite Hh', Hh.
    + by rewrite Hw', Hw.
    + by rewrite Hs', Hs.
Qed.




(** X4: [/js home clear] returns 1 and reports "Home cleared." whether or
    not a home was set; from then on, until the player sets a home again,
    [/js home go] and [/js home info] fail with an error message, return 0 and
    change nothing. *)
Theorem home_clear_then_go (src src' : Source) (p p' : Player) (st st' : ModState)
    (steps : list Step) (out : list Effect) :
  src_player src = Some p ->
  run steps (state (js_home_clear src st)) = Some (st', out) ->
  Forall (fun s => ~ writes_home (uuid p) s) steps ->
  src_player src' = Some p' ->
  uuid p' = uuid p ->
  result (js_home_clear src st) = Returned 1
  /\ effects (js_home_clear src st) = [SendFeedback "🏠 Home cleared."]
  /\ js_home_go src' st' = ret 0 st' [SendError "No home set. Use /js home set first."]
  /\ js_home_info src' st' = ret 0 st' [SendError "No home set."].
Proof.
  intros Hp Hrun Hframe Hp' Hu.
  destruct (run_frame _ _ _ _ Hrun) as (Hh & _ & _).
  specialize (Hh (uuid p) Hframe).
  unfold js_home_clear in *. rewrite Hp in *. simpl in Hh. rewrite lookup_delete_eq in Hh.
  unfold js_home_go, js_home_info. rewrite Hp', Hu, Hh. done.
Qed.

Lemma home_clear_then_go_witness :
  js_home_go as_steve (state (js_home_clear as_steve (state (js_home_set as_steve initial_state))))
  = ret 0 (state (js_home_clear as_steve (state (js_home_set as_steve initial_state))))
      [SendError "No home set. Use /js home set first."].
Proof.
  exact (proj1 (proj2 (proj2
    (home_clear_then_go as_steve as_steve steve steve
       (state (js_home_set as_steve initial_state)) _ [] [] eq_refl eq_refl
       (Forall_nil_2 _) eq_refl eq_refl)))).
Defined.



(** X6: [/js warp remove] of a warp that exists, by any sender (a player
    is not needed), returns 1; from then on, until a warp of that name is set
    again, [/js warp go] and [/js warp remove] of the name fail with "Unknown
    warp", return 0 and change nothing. *)
Theorem warp_remove_then_go (src' : Source) (p' : Player) (a b : string) (pos : BlockPos)
    (st st' : ModState) (steps : list Step) (out : list Effect) :
  warpData st !! Str.toLowerCase a = Some pos ->
  run steps (state (js_warp_remove a st)) = Some (st', out) ->
  Forall (fun s => ~ writes_warp (Str.toLowerCase a) s) steps ->
  src_player src' = Some p' ->
  Str.toLowerCase b = Str.toLowerCase a ->
  result (js_warp_remove a st) = Returned 1
  /\ js_warp_go src' b st'
     = ret 0 st' [SendError ("Unknown warp: " +:+ Str.toLowerCase a)]
  /\ js_warp_remove b st'
     = ret 0 st' [SendError ("Unknown warp: " +:+ Str.toLowerCase a)].
Proof.
  intros Hpos Hrun Hframe Hp' Hb.
  destruct (run_frame _ _ _ _ Hrun) as (_ & Hw & _).
  specialize (Hw (Str.toLowerCase a) Hframe).
  unfold js_warp_remove in *. rewrite Hpos in *. simpl in Hw.
  rewrite lookup_delete_eq in Hw.
  unfold js_warp_go. rewrite Hp', Hb, Hw. done.
Qed.

Lemma warp_remove_then_go_witness :
  let st := state (js_warp_set as_steve "Spawn" initial_state) in
  js_warp_remove "spawn" (state (js_warp_remove "SPAWN" st))
  = ret 0 (state (js_warp_remove "SPAWN" st)) [SendError "Unknown warp: spawn"].
Proof.
  intros st.
  exact (proj2 (proj2
    (warp_remove_then_go as_steve steve "SPAWN" "spawn" (mkBlockPos 0 64 0) st _ [] []
       eq_refl eq_refl (Forall_nil_2 _) eq_refl eq_refl))).
Defined.


(** X7: [/js warp list] names every warp that is set, each once, after a
    header line; with no warp set it says so.  It returns 1 and changes
    nothing. *)
Theorem warp_list_names_every_warp (st : ModState) :
  exists names,
    NoDup names
    /\ (forall n, n ∈ names <-> is_Some (warpData st !! n))
    /\ js_warp_list st
       = ret 1 st
           (match names with
            | [] => [SendFeedback "No warps set."]
            | _ => SendFeedback "🧭 Warps: "
                   :: map (fun n => SendFeedback ("  • " +:+ n)) names
            end).
Proof.
  exists (map fst (map_to_list (warpData st))). split; [|split].
  - apply NoDup_fst_map_to_list.
  - intros n. rewrite list_elem_of_fmap. split.
    + intros ([k v] & -> & Hin). apply elem_of_map_to_list in Hin. by eexists.
    + intros [v Hv]. exists (n, v). split; [done|]. by apply elem_of_map_to_list.
  - unfold js_warp_list. case_bool_decide as He.
    + rewrite He, map_to_list_empty. reflexivity.
    + destruct (map_to_list (warpData st)) as [|kv l] eqn:Hl.
      * by apply map_to_list_empty_iff in Hl.
      * by rewrite map_map.
Qed.

(** X8: the session of a player starts at the join: from then on, until
    the player joins again or disconnects, [/js playtime] reports the time
    since that join as whole minutes and the whole seconds beyond them, and a
    disconnect logs the whole minutes and removes the record. *)
Theorem playtime_counts_from_join (p p' : Player) (server : Server) (t0 now : Z)
    (draw : nat) (src : Source) (st st' : ModState) (steps : list Step)
    (out : list Effect) :
  run steps (fst (onPlayReady p server t0 draw st)) = Some (st', out) ->
  Forall (fun s => ~ writes_session (uuid p) s) steps ->
  src_player src = Some p' ->
  uuid p' = uuid p ->
  t0 <= now ->
  let elapsed := now - t0 in
  exists m s,
    0 <= m /\ 0 <= s < 60
    /\ (60 * m + s) * 1000 <= elapsed < (60 * m + s + 1) * 1000
    /\ js_playtime src now st'
       = ret 1 st' [SendFeedback ("⏱ Online for " +:+ pretty m +:+ "m "
                                  +:+ pretty s +:+ "s")]
    /\ onPlayDisconnect p' now st'
       = (set_playerData (delete (uuid p) (playerData st')) st',
          [LogInfo (pname p +:+ " left after " +:+ pretty m +:+ " min")]).
Proof.
  intros Hrun Hframe Hp' Hu Hle elapsed.
  destruct (run_frame _ _ _ _ Hrun) as (_ & _ & Hs).
  specialize (Hs (uuid p) Hframe). simpl in Hs. rewrite lookup_insert_eq in Hs.
  assert (He : 0 <= elapsed) by (subst elapsed; lia).
  pose proof (Z.div_mod elapsed 60000 ltac:(lia)) as Hdm.
  pose proof (Z.mod_pos_bound elapsed 60000 ltac:(lia)) as Hmb.
  pose proof (Z.div_pos elapsed 60000 He ltac:(lia)) as Hm.
  pose proof (Z.div_mod (elapsed `mod` 60000) 1000 ltac:(lia)) as Hdm2.
  pose proof (Z.mod_pos_bound (elapsed `mod` 60000) 1000 ltac:(lia)) as Hmb2.
  assert (Hs0 : 0 <= (elapsed `mod` 60000) / 1000) by (apply Z.div_pos; lia).
  assert (Hs60 : (elapsed `mod` 60000) / 1000 < 60) by (apply Z.div_lt_upper_bound; lia).
  exists (elapsed / 60000), ((elapsed `mod` 60000) / 1000).
  split; [done|]. split; [done|]. split; [lia|].
  unfold js_playtime, onPlayDisconnect. rewrite Hp', Hu, Hs. simpl.
  fold elapsed. rewrite Z.rem_mod_nonneg by lia. done.
Qed.

(** Steve joins at time 1000 and asks 125 seconds later. *)
Lemma playtime_counts_from_join_witness :
  exists m s : Z,
    js_playtime as_steve 126000 (fst (onPlayReady steve quiet_server 1000 0 initial_state))
    = ret 1 (fst (onPlayReady steve quiet_server 1000 0 initial_state))
        [SendFeedback ("⏱ Online for " +:+ pretty m +:+ "m " +:+ pretty s +:+ "s")].
Proof.
  destruct (playtime_counts_from_join steve steve quiet_server 1000 126000 0 as_steve
              initial_state _ [] [] eq_refl (Forall_nil_2 _) eq_refl eq_refl ltac:(lia))
    as (m & s & _ & _ & _ & Hplay & _).
  exists m, s. exact Hplay.
Defined.

(** X9: a disconnect ends the session: until the player joins again,
    [/js playtime] returns 1 without any message, and a further disconnect
    logs nothing. *)
Theorem disconnect_ends_session (p p' : Player) (t1 : Z) (src : Source)
    (st st' : ModState) (steps : list Step) (out : list Effect) :
  run steps (fst (onPlayDisconnect p t1 st)) = Some (st', out) ->
  Forall (fun s => ~ writes_session (uuid p) s) steps ->
  src_player src = Some p' ->
  uuid p' = uuid p ->
  (forall now, js_playtime src now st' = ret 1 st' [])
  /\ (forall now, snd (onPlayDisconnect p' now st') = []).
Proof.
  intros Hrun Hframe Hp' Hu.
  destruct (run_frame _ _ _ _ Hrun) as (_ & _ & Hs).
  specialize (Hs (uuid p) Hframe). simpl in Hs. rewrite lookup_delete_eq in Hs.
  unfold js_playtime, onPlayDisconnect. rewrite Hp', Hu, Hs. done.
Qed.

Lemma disconnect_ends_session_witness :
  js_playtime as_steve 5000
    (fst (onPlayDisconnect steve 2000
            (fst (onPlayReady steve quiet_server 1000 0 initial_state))))
  = ret 1 (fst (onPlayDisconnect steve 2000
                  (fst (onPlayReady steve quiet_server 1000 0 initial_state)))) [].
Proof.
  exact (proj1 (disconnect_ends_session steve steve 2000 as_steve _ _ [] []
                  eq_refl (Forall_nil_2 _) eq_refl eq_refl) 5000).
Defined.

End SampleState.

(* ===================================================================== *)
(** * The sample mod's commands that read the world *)
(* ===================================================================== *)

Section SampleWorld.
Import SampleMod.

Ltac unfold_every_handler :=
  unfold js_help, js_greet, js_roll, js_playtime, js_kit, js_tp, js_boom,
    js_particles, js_hand, js_top, js_heal_target, js_heal, js_gamemode,
    js_stack, js_near, js_time_set, js_time_add, js_actionbar, js_home_set,
    js_home_go, js_home_info, js_home_clear, js_warp_set, js_warp_go,
    js_warp_list, js_warp_remove, js_effect_add, js_effect_clear,
    js_weather_set, js_daily, kit, ret.

(** The downward scan stops one above the first block that is not air, and
    keeps the start value when it meets none. *)
Lemma scan_down_spec server x z top0 n : forall y,
  let r := scan_down server (x, z) n y top0 in
  (r = top0 /\ forall y', y - Z.of_nat n < y' <= y -> isAir server x y' z = true)
  \/ (y - Z.of_nat n < r - 1 <= y
      /\ isAir server x (r - 1) z = false
      /\ forall y', r - 1 < y' <= y -> isAir server x y' z = true).
Proof.
  induction n as [|n IH]; intros y; cbn [scan_down fst snd].
  - left. split; [done|]. intros y' Hy'. lia.
  - destruct (isAir server x y z) eqn:Hair; cbn [negb].
    + destruct (IH (y - 1)) as [[Hr Hall]|(Hb & Hsolid & Hall)].
      * left. split; [done|]. intros y' Hy'.
        destruct (decide (y' = y)) as [->|Hne]; [done|]. apply Hall. lia.
      * right. split; [lia|]. split; [done|]. intros y' Hy'.
        destruct (decide (y' = y)) as [->|Hne]; [done|]. apply Hall. lia.
    + right. replace (y + 1 - 1) with y by lia. split; [lia|]. split; [done|].
      intros y' Hy'. lia.
Qed.

(** X10: [/js top] teleports the player to the centre of the column, one
    block above the highest block that is not air among those above the
    bottom layer and below the top of the world; every block above the
    landing place is air.  When the column holds no such block (the bottom
    layer itself is never examined) the destination is the topmost layer. *)
Theorem top_lands_above_highest_block (src : Source) (player : Player) (server : Server)
    (st : ModState) :
  src_player src = Some player ->
  let x := to_int32 (java_round (px player)) in
  let z := to_int32 (java_round (pz player)) in
  exists y,
    js_top src server st
    = ret 1 st [ TeleportPlayer (uuid player) (inject_Z x + (1 # 2))%Q (inject_Z y)
                                (inject_Z z + (1 # 2))%Q;
                 SendFeedback ("⬆ Teleported to surface (y=" +:+ pretty y +:+ ")") ]
    /\ ((y = topY server - 1
         /\ forall y', bottomY server < y' <= topY server - 1 ->
                       isAir server x y' z = true)
        \/ (bottomY server < y - 1 <= topY server - 1
            /\ isAir server x (y - 1) z = false
            /\ forall y', y - 1 < y' <= topY server - 1 -> isAir server x y' z = true)).
Proof.
  intros Hp x z. unfold js_top. rewrite Hp. cbv zeta. fold x z.
  set (n := Z.to_nat (topY server - 1 - bottomY server)).
  eexists. split; [reflexivity|].
  destruct (scan_down_spec server x z (topY server - 1) n (topY server - 1))
    as [[Hr Hall]|(Hb & Hsolid & Hall)].
  - left. split; [done|]. intros y' Hy'. apply Hall. subst n. lia.
  - right. split; [subst n; lia|]. split; done.
Qed.

(** Steve stands on a world whose blocks are solid up to layer 70. *)
Lemma top_lands_above_highest_block_witness :
  let server := mkServer [steve] (fun _ y _ => 70 <? y) 320 (-64) 0
                  (fun _ => false) (fun _ => false) (fun _ => None) (fun _ => "") in
  exists y,
    js_top as_steve server initial_state
    = ret 1 initial_state
        [ TeleportPlayer "uuid-steve" (1 # 2) (inject_Z y) (1 # 2);
          SendFeedback ("⬆ Teleported to surface (y=" +:+ pretty y +:+ ")") ].
Proof.
  intros server.
  destruct (top_lands_above_highest_block as_steve steve server initial_state eq_refl)
    as (y & Htop & _).
  exists y. exact Htop.
Defined.

(** ** [/js near] *)






(** X12: of the registered commands only [/js home set], [/js home
    clear], [/js warp set], [/js warp remove] and [/js daily] ever change the
    state of the mod; each of these changes its own map only; and a sender
    that is not a player can change the state through [/js warp remove]
    alone. *)
Theorem only_five_commands_write_state (src : Source) (server : Server) (c : Command)
    (st : ModState) :
  let st' := state (execute src server c st) in
  (writes_state c = false -> st' = st)
  /\ playerData st' = playerData st
  /\ ((c <> JsHomeSet /\ c <> JsHomeClear) -> homeData st' = homeData st)
  /\ ((forall a, c <> JsWarpSet a /\ c <> JsWarpRemove a) -> warpData st' = warpData st)
  /\ ((forall now, c <> JsDaily now) -> dailyClaims st' = dailyClaims st)
  /\ (src_player src = None -> (forall a, c <> JsWarpRemove a) -> st' = st).
Proof.
  cbv zeta. repeat split.
  - intros Hw. destruct c; try discriminate Hw; simpl; unfold_every_handler;
      repeat case_match; done.
  - destruct c; simpl; unfold_every_handler; repeat case_match; done.
  - intros [H1 H2]. destruct c; try done; simpl; unfold_every_handler;
      repeat case_match; done.
  - intros H. destruct c; try (by destruct (H name)); simpl; unfold_every_handler;
      repeat case_match; done.
  - intros H. destruct c; try (by destruct (H now)); simpl; unfold_every_handler;
      repeat case_match; done.
  - intros Hnp H. destruct c; try (by destruct (H name)); simpl; unfold_every_handler;
      rewrite ?Hnp; repeat case_match; done.
Qed.

End SampleWorld.

(* ===================================================================== *)
(** * Further properties of the example mods *)
(* ===================================================================== *)

Section MoreExampleMods.
Import Api.

(** ** Player Tracker: what a record holds *)







(** ** Player Tracker: the leaderboard *)

Lemma insert_by_count_perm e l : PlayerTracker.insert_by_count e l ≡ₚ e :: l.
Proof.
  induction l as [|e' l IH]; simpl; [done|].
  case_bool_decide; [done|]. rewrite IH. apply Permutation_swap.
Qed.

Lemma insert_by_count_sorted e l :
  StronglySorted PlayerTracker.by_count l -> StronglySorted PlayerTracker.by_count (PlayerTracker.insert_by_count e l).
Proof.
  induction l as [|e' l IH]; intros Hs; simpl.
  - repeat constructor.
  - apply StronglySorted_inv in Hs as [Hs Hall].
    case_bool_decide as Hlt.
    + constructor; [by constructor|]. constructor; [unfold PlayerTracker.by_count; lia|].
      eapply Forall_impl; [exact Hall|]. intros b Hb. unfold PlayerTracker.by_count in *. lia.
    + constructor; [by apply IH|].
      rewrite (insert_by_count_perm e l). constructor; [unfold PlayerTracker.by_count; lia|done].
Qed.

Lemma sort_by_count_spec l : forall acc,
  StronglySorted PlayerTracker.by_count acc ->
  fold_left (fun acc e => PlayerTracker.insert_by_count e acc) l acc ≡ₚ acc ++ l
  /\ StronglySorted PlayerTracker.by_count
       (fold_left (fun acc e => PlayerTracker.insert_by_count e acc) l acc).
Proof.
  induction l as [|e l IH]; intros acc Hs; simpl.
  - by rewrite app_nil_r.
  - destruct (IH _ (insert_by_count_sorted e acc Hs)) as [Hp Hs'].
    split; [|done]. rewrite Hp, insert_by_count_perm. by rewrite <- Permutation_middle.
Qed.

(** X16: [/leaderboard] ranks every player of the mapping by command
    count, highest first, and prints the first five of the ranking, numbered
    from 1, after a header; it changes nothing. *)
Theorem leaderboard_shows_top_five (activity : gmap string PlayerTracker.PlayerActivity) :
  exists ranking,
    ranking ≡ₚ map (fun kv => (fst kv, PlayerTracker.commandCount (snd kv)))
                   (map_to_list activity)
    /\ StronglySorted PlayerTracker.by_count ranking
    /\ PlayerTracker.leaderboard activity
       = (activity,
          Reply "§6=== Most Active Players ==="
          :: imap (fun i e =>
                     Reply ("§e" +:+ pretty (Z.of_nat i + 1) +:+ ". §f" +:+ fst e
                            +:+ " §7- §f" +:+ pretty (snd e) +:+ " commands"))
                  (take 5 ranking)).
Proof.
  destruct (sort_by_count_spec
              (map (fun kv => (fst kv, PlayerTracker.commandCount (snd kv)))
                   (map_to_list activity)) [] (SSorted_nil _)) as [Hp Hs].
  eexists. split; [exact Hp|]. split; [exact Hs|]. reflexivity.
Qed.


(** ** Spawn Kit: the time of the grant *)

(** An invocation that is not a reset aimed at [name] keeps the entry of a
    player who has the kit. *)
Lemma execute_keeps_entry host name c (received : gmap string Z) t :
  received !! name = Some t -> t <> 0 ->
  ~ SpawnKit.resets name c ->
  fst (SpawnKit.execute host c received) !! name = Some t.
Proof.
  intros Ht Hnz Hnr. destruct c as [ctx now|ctx]; simpl.
  - unfold SpawnKit.kit. destruct (is_player ctx); cbn [negb fst]; [|done].
    destruct (SpawnKit.has_received received (playerName ctx)) eqn:Hq; cbn [fst]; [done|].
    rewrite lookup_insert_ne; [done|]. intros Heq. rewrite Heq in Hq.
    unfold SpawnKit.has_received, Js.get in Hq. rewrite Ht in Hq.
    apply negb_false_iff, Z.eqb_eq in Hq. done.
  - unfold SpawnKit.kitreset. simpl in Hnr.
    destruct (SpawnKit.has_received received (key_of (arg_player ctx))); cbn [negb fst];
      [|done].
    by rewrite lookup_delete_ne.
Qed.

Lemma run_keeps_entry host name cs : forall (received : gmap string Z) t,
  received !! name = Some t -> t <> 0 ->
  Forall (fun c => ~ SpawnKit.resets name c) cs ->
  fst (SpawnKit.run host cs received) !! name = Some t.
Proof.
  induction cs as [|c cs IH]; intros received t Ht Hnz Hcs; [done|].
  apply Forall_cons in Hcs as [Hc Hcs]. cbn [SpawnKit.run].
  pose proof (execute_keeps_entry host name c received t Ht Hnz Hc) as Hstep.
  destruct (SpawnKit.execute host c received) as [r1 out1]. cbn [fst] in Hstep.
  specialize (IH r1 t Hstep Hnz Hcs).
  destruct (SpawnKit.run host cs r1) as [r2 out2]. exact IH.
Qed.

(** X17: the time shown by the reply "Received on: ..." of [/kit] is the
    clock reading of the invocation that granted the kit, whatever commands
    ran since, as long as none was a [/kitreset] aimed at the player. *)
Theorem kit_reply_shows_the_grant_time (host : Host) (name : string)
    (ctx ctx' : CommandContext) (now now' : Z) (received : gmap string Z)
    (cs : list SpawnKit.Command) :
  is_player ctx = true -> playerName ctx = name ->
  now <> 0 ->
  SpawnKit.has_received received name = false ->
  Forall (fun c => ~ SpawnKit.resets name c) cs ->
  is_player ctx' = true -> playerName ctx' = name ->
  let later := fst (SpawnKit.run host cs (fst (SpawnKit.kit host ctx now received))) in
  SpawnKit.kit host ctx' now' later
  = (later,
     [ Reply "§cYou've already received your starter kit!";
       Reply ("§7Received on: " +:+ toLocaleString host now) ]).
Proof.
  intros Hp Hn Hnow Hhas Hcs Hp' Hn' later.
  assert (Hgranted : fst (SpawnKit.kit host ctx now received) !! name = Some now).
  { unfold SpawnKit.kit. rewrite Hp. cbn [negb]. cbv zeta. rewrite Hn, Hhas.
    cbn [fst]. apply lookup_insert_eq. }
  pose proof (run_keeps_entry host name cs _ now Hgranted Hnow Hcs) as Hlater.
  fold later in Hlater.
  unfold SpawnKit.kit. rewrite Hp'. cbn [negb]. cbv zeta. rewrite Hn'.
  unfold SpawnKit.has_received, SpawnKit.received_date, Js.get. rewrite Hlater.
  rewrite (proj2 (negb_true_iff _) (proj2 (Z.eqb_neq _ _) Hnow)). reflexivity.
Qed.

(** Alex takes the kit at time 1000, Bob is reset, Alex asks again. *)
Lemma kit_reply_shows_the_grant_time_witness :
  let later :=
    fst (SpawnKit.run sample_host [SpawnKit.KitReset (by_console "Bob")]
           (fst (SpawnKit.kit sample_host (by_player "Alex") 1000 ∅))) in
  SpawnKit.kit sample_host (by_player "Alex") 2000 later
  = (later,
     [ Reply "§cYou've already received your starter kit!";
       Reply ("§7Received on: " +:+ toLocaleString sample_host 1000) ]).
Proof.
  refine (kit_reply_shows_the_grant_time sample_host "Alex" (by_player "Alex")
            (by_player "Alex") 1000 2000 ∅ [SpawnKit.KitReset (by_console "Bob")]
            eq_refl eq_refl _ eq_refl _ eq_refl eq_refl).
  - discriminate.
  - repeat constructor. simpl. discriminate.
Defined.

(** Storage starts empty; Alex takes the kit and is reset, Bob takes it. *)
Lemma spawn_kit_keys_witness :
  let cs := [ SpawnKit.Kit (by_player "Alex") 1000;
              SpawnKit.KitReset (by_console "Alex");
              SpawnKit.Kit (by_player "Bob") 2000 ] in
  dom (fst (SpawnKit.run sample_host cs ∅)) = SpawnKit.holders cs (dom (∅ : gmap string Z)).
Proof.
  intros cs. apply (spawn_kit_keys sample_host cs ∅).
  - apply map_Forall_empty.
  - repeat constructor; discriminate.
Defined.

(** ** Teleport Home: the home that was set *)

(** An invocation by another player leaves the own home of [name] alone. *)
Lemma home_other_player host ctx homes name :
  playerName ctx <> name ->
  TeleportHome.own (fst (TeleportHome.home host ctx homes)) !! name
  = TeleportHome.own homes !! name.
Proof.
  intros Hne. unfold TeleportHome.home.
  destruct (is_player ctx); cbn [negb fst]; [|done].
  repeat (case_match; cbn [negb fst]; try done).
  - unfold TeleportHome.assign_home.
    destruct (TeleportHome.own homes !! playerName ctx); cbn [TeleportHome.own].
    + by rewrite lookup_insert_ne.
    + destruct (String.eqb (playerName ctx) "__proto__"); cbn [TeleportHome.own]; [done|].
      by rewrite lookup_insert_ne.
  - unfold TeleportHome.delete_home. cbn [TeleportHome.own]. by rewrite lookup_delete_ne.
Qed.

Lemma run_other_players cs : forall homes name,
  Forall (fun hc => playerName (snd hc) <> name) cs ->
  TeleportHome.own (TeleportHome.run cs homes) !! name = TeleportHome.own homes !! name.
Proof.
  induction cs as [|[host ctx] cs IH]; intros homes name Hcs; [done|].
  apply Forall_cons in Hcs as [Hc Hcs]. cbn [TeleportHome.run].
  rewrite IH by done. by apply home_other_player.
Qed.

(** X18: after [/home set] by a player not named [__proto__], whatever
    [/home] commands other players run, [/home] teleports the player to the
    coordinates the player had when the home was set, with the portal
    particles at the place left and at the home, and [/home list] shows those
    coordinates rounded down and the dimension. *)
Theorem home_teleports_to_where_it_was_set (host host' : Host) (ctx ctx' : CommandContext)
    (homes : TeleportHome.Homes) (cs : list (Host * CommandContext)) :
  is_player ctx = true ->
  TeleportHome.action_of ctx = "set" ->
  playerName ctx <> "__proto__" ->
  Forall (fun hc => playerName (snd hc) <> playerName ctx) cs ->
  is_player ctx' = true ->
  playerName ctx' = playerName ctx ->
  let name := playerName ctx in
  let at_set := getPlayer host name in
  let current := getPlayer host' name in
  let later := TeleportHome.run cs (fst (TeleportHome.home host ctx homes)) in
  (TeleportHome.action_of ctx' <> "set" ->
   TeleportHome.action_of ctx' <> "delete" ->
   TeleportHome.action_of ctx' <> "list" ->
   TeleportHome.home host' ctx' later
   = (later,
      [ SpawnParticle "minecraft:portal"
          (Some (x current)) (Some (y current + 1)%Q) (Some (z current)) 50;
        TeleportPlayer name (Some (x at_set)) (Some (y at_set)) (Some (z at_set));
        SpawnParticle "minecraft:portal"
          (Some (x at_set)) (Some (y at_set + 1)%Q) (Some (z at_set)) 50;
        PlaySound "minecraft:entity.enderman.teleport"
          (Some (x at_set)) (Some (y at_set)) (Some (z at_set));
        Reply "§aTeleported home!" ]))
  /\ (TeleportHome.action_of ctx' = "list" ->
      TeleportHome.home host' ctx' later
      = (later,
         [ Reply "§6=== Your Home ===";
           Reply ("§eLocation: §f" +:+ pretty (Qfloor (x at_set)) +:+ ", "
                  +:+ pretty (Qfloor (y at_set)) +:+ ", " +:+ pretty (Qfloor (z at_set)));
           Reply ("§eDimension: §f" +:+ dimensionId at_set) ])).
Proof.
  intros Hp Hact Hname Hcs Hp' Hn' name at_set current later.
  set (h := TeleportHome.mkHome (x at_set) (y at_set) (z at_set) (dimensionId at_set)
              (default 0%Q (yaw at_set)) (default 0%Q (pitch at_set))).
  assert (Hset : TeleportHome.own (fst (TeleportHome.home host ctx homes)) !! name = Some h).
  { unfold TeleportHome.home. rewrite Hp. cbn [negb]. cbv zeta. rewrite Hact.
    cbn [String.eqb Ascii.eqb Bool.eqb andb fst]. fold name at_set h.
    unfold TeleportHome.assign_home.
    destruct (TeleportHome.own homes !! name); cbn [TeleportHome.own].
    - apply lookup_insert_eq.
    - destruct (String.eqb_spec name "__proto__") as [Heq|_]; [done|].
      cbn [TeleportHome.own]. apply lookup_insert_eq. }
  assert (Hlater : TeleportHome.lookup_home later name = TeleportHome.FHome h).
  { unfold TeleportHome.lookup_home. subst later. rewrite run_other_players by done.
    by rewrite Hset. }
  split.
  - intros H1 H2 H3. unfold TeleportHome.home. rewrite Hp'. cbn [negb]. cbv zeta.
    rewrite Hn'. fold name current. rewrite Hlater.
    destruct (String.eqb_spec (TeleportHome.action_of ctx') "set"); [done|].
    destruct (String.eqb_spec (TeleportHome.action_of ctx') "delete"); [done|].
    destruct (String.eqb_spec (TeleportHome.action_of ctx') "list"); [done|].
    reflexivity.
  - intros Hl. unfold TeleportHome.home. rewrite Hp'. cbn [negb]. cbv zeta.
    rewrite Hn'. fold name. rewrite Hlater, Hl. reflexivity.
Qed.

(** Steve sets a home and asks to go there. *)
Lemma home_teleports_to_where_it_was_set_witness :
  let ctx := mkContext true "Steve" None (Some "SET") in
  let later := fst (TeleportHome.home sample_host ctx (TeleportHome.mkHomes ∅ None)) in
  TeleportHome.home sample_host (by_player "Steve") later
  = (later,
     [ SpawnParticle "minecraft:portal" (Some 0%Q) (Some (64 + 1)%Q) (Some 0%Q) 50;
       TeleportPlayer "Steve" (Some 0%Q) (Some 64%Q) (Some 0%Q);
       SpawnParticle "minecraft:portal" (Some 0%Q) (Some (64 + 1)%Q) (Some 0%Q) 50;
       PlaySound "minecraft:entity.enderman.teleport" (Some 0%Q) (Some 64%Q) (Some 0%Q);
       Reply "§aTeleported home!" ]).
Proof.
  intros ctx later.
  refine (proj1 (home_teleports_to_where_it_was_set sample_host sample_host ctx
                   (by_player "Steve") (TeleportHome.mkHomes ∅ None) []
                   eq_refl eq_refl _ (Forall_nil_2 _) eq_refl eq_refl) _ _ _);
    discriminate.
Defined.

End MoreExampleMods.

(* ===================================================================== *)
(** * Further properties of the version selector *)
(* ===================================================================== *)

Section MoreSelector.
Import VersionSelector.

(** The options the scan appends do not depend on the location. *)
Lemma scan_options config key currentPath :
  fst (scan config key currentPath) = omap (option_of key) config.
Proof.
  induction config as [|v config IH] using rev_ind; [reflexivity|].
  rewrite scan_snoc, omap_app. unfold visit. cbn [fst snd].
  assert (Hlast : omap (option_of key) [v]
                  = match page_href v key with
                    | Some _ => [(id v, label v)]
                    | None => []
                    end).
  { unfold option_of. simpl. by destruct (page_href v key). }
  rewrite Hlast. destruct (page_href v key); cbn [fst]; [by rewrite IH|].
  by rewrite IH, app_nil_r.
Qed.

(** The index the scan leaves is 0 or that of an entry. *)
Lemma scan_index_bound config key currentPath :
  snd (scan config key currentPath) = O
  \/ (snd (scan config key currentPath) < length config)%nat.
Proof.
  induction config as [|v config IH] using rev_ind; [by left|].
  rewrite scan_snoc. unfold visit. cbn [fst snd]. rewrite length_app. simpl.
  destruct (page_href v key); cbn [snd]; [destruct (Str.endsWith _ _)|];
    try (destruct IH; [by left|right; lia]).
  right. lia.
Qed.

(** What the initializer does to the page, apart from the index it
    selects and the note. *)
Lemma init_with_appends (config : list Version) (o : Options) (page : Page)
    (selId : string) (sel : Select) :
  selectId o = Some selId ->
  selects page !! selId = Some sel ->
  exists page' sel',
    init_with config (Some o) page = inr page'
    /\ selects page' !! selId = Some sel'
    /\ options sel' = options sel ++ omap (option_of (pageKey o)) config
    /\ (forall k, k <> selId -> selects page' !! k = selects page !! k)
    /\ pathname page' = pathname page
    /\ href_assigned page' = href_assigned page.
Proof.
  intros Hid Hsel. unfold init_with. rewrite Hid, Hsel.
  pose proof (scan_options config (pageKey o) (Str.strip_trailing_slashes (pathname page)))
    as Hopts.
  destruct (scan config (pageKey o) (Str.strip_trailing_slashes (pathname page)))
    as [added currentIndex].
  cbn [fst] in Hopts. subst added.
  eexists _, _. split; [reflexivity|]. cbn [selects pathname href_assigned].
  split; [apply lookup_insert_eq|]. split; [reflexivity|].
  split; [|done]. intros k Hk. by rewrite lookup_insert_ne.
Qed.

(** X19: the initializer appends to the [<select>], after the options it
    already holds and in the order of the table, one option for every version
    that has a page for the page key, with the id as value and the label as
    text, whatever the location is; it assigns no location and touches no
    other [<select>]. *)
Theorem init_lists_the_versions_with_a_page (config : list Version) (o : Options)
    (page : Page) (selId : string) (sel : Select) :
  selectId o = Some selId ->
  selects page !! selId = Some sel ->
  exists page' sel',
    init_with config (Some o) page = inr page'
    /\ selects page' !! selId = Some sel'
    /\ options sel'
       = options sel
         ++ omap (fun v => match page_href v (pageKey o) with
                           | Some _ => Some (id v, label v)
                           | None => None
                           end) config
    /\ (forall k, k <> selId -> selects page' !! k = selects page !! k)
    /\ pathname page' = pathname page
    /\ href_assigned page' = href_assigned page.
Proof.
  intros Hid Hsel. unfold init_with. rewrite Hid, Hsel.
  pose proof (scan_options config (pageKey o) (Str.strip_trailing_slashes (pathname page)))
    as Hopts.
  destruct (scan config (pageKey o) (Str.strip_trailing_slashes (pathname page)))
    as [added currentIndex].
  cbn [fst] in Hopts. subst added.
  eexists _, _. split; [reflexivity|]. cbn [selects pathname href_assigned].
  split; [apply lookup_insert_eq|]. split; [reflexivity|].
  split; [|done]. intros k Hk. by rewrite lookup_insert_ne.
Qed.

Lemma init_lists_the_versions_with_a_page_witness :
  exists page' sel',
    init_with VERSION_CONFIG (Some api_options) v1_api_page = inr page'
    /\ selects page' !! "versionSelect" = Some sel'
    /\ options sel' = [("main", "main (latest)"); ("v1.0.0", "v1.0.0")].
Proof.
  destruct (init_lists_the_versions_with_a_page VERSION_CONFIG api_options v1_api_page
              "versionSelect" (mkSelect [] (-1)) eq_refl eq_refl)
    as (page' & sel' & Hinit & Hsel & Hopts & _).
  exists page', sel'. split; [exact Hinit|]. split; [exact Hsel|]. exact Hopts.
Defined.

(** A slash added at the end of a path is stripped with the others. *)
Lemma strip_trailing_slashes_slash s :
  Str.strip_trailing_slashes (s +:+ "/") = Str.strip_trailing_slashes s.
Proof.
  induction s as [|c s IH]; [reflexivity|].
  change (String c s +:+ "/") with (String c (s +:+ "/")).
  cbn [Str.strip_trailing_slashes]. by rewrite IH.
Qed.

(** X20: a slash at the end of the location path makes no difference to
    what the initializer does to the [<select>] elements and to the notes. *)
Theorem trailing_slash_is_ignored (config : list Version) (opts : option Options)
    (page : Page) :
  let slashed := mkPage (selects page) (notes page) (pathname page +:+ "/")
                        (href_assigned page) in
  match init_with config opts page, init_with config opts slashed with
  | inr a, inr b => selects a = selects b /\ notes a = notes b
  | inl w, inl w' => w = w'
  | _, _ => False
  end.
Proof.
  cbv zeta. unfold init_with. destruct opts as [o|]; [|done].
  destruct (selectId o) as [selId|]; [|done]. cbn [selects notes pathname].
  destruct (selects page !! selId) as [sel|]; [|done].
  rewrite strip_trailing_slashes_slash.
  destruct (scan config (pageKey o) (Str.strip_trailing_slashes (pathname page)))
    as [added currentIndex].
  cbn [selects notes]. done.
Qed.

(** X21: on a page whose [<select>] was empty, the option selected by the
    initializer and the note it writes belong to the same version of the
    table: the selected index is that of a version, the value of the
    [<select>] is its id, and the note element holds its note. *)
Theorem selected_option_and_note_agree (o : Options) (page : Page) (selId nid : string)
    (sel : Select) (old : string) :
  selectId o = Some selId ->
  selects page !! selId = Some sel ->
  options sel = [] ->
  noteId o = Some nid ->
  notes page !! nid = Some old ->
  exists page' sel' v,
    initThreadJsVersionSelector (Some o) page = inr page'
    /\ selects page' !! selId = Some sel'
    /\ 0 <= selectedIndex sel'
    /\ VERSION_CONFIG !! Z.to_nat (selectedIndex sel') = Some v
    /\ select_value sel' = id v
    /\ notes page' !! nid = Some (note v).
Proof.
  intros Hid Hsel Hempty Hnid Hold.
  unfold initThreadJsVersionSelector, init_with. rewrite Hid, Hsel, Hnid, Hold, Hempty.
  pose proof (scan_options VERSION_CONFIG (pageKey o)
                (Str.strip_trailing_slashes (pathname page))) as Hopts.
  pose proof (scan_index_bound VERSION_CONFIG (pageKey o)
                (Str.strip_trailing_slashes (pathname page))) as Hidx.
  destruct (scan VERSION_CONFIG (pageKey o) (Str.strip_trailing_slashes (pathname page)))
    as [added currentIndex].
  cbn [fst snd] in Hopts, Hidx. subst added.
  assert (Hcases : currentIndex = O \/ currentIndex = 1%nat).
  { destruct Hidx as [->|Hlt]; [by left|]. simpl in Hlt. lia. }
  destruct Hcases as [-> | ->]; destruct (pageKey o).
  all: eexists _, _, _; (split; [reflexivity|]); cbn [selects notes];
    rewrite !lookup_insert_eq.
  all: split; [reflexivity|].
  all: split; [vm_compute; discriminate|].
  all: split; [reflexivity|].
  all: split; [reflexivity|].
  all: simpl; apply lookup_insert_eq.
Qed.

Lemma selected_option_and_note_agree_witness :
  exists page' sel' v,
    initThreadJsVersionSelector (Some api_options) v1_api_page = inr page'
    /\ selects page' !! "versionSelect" = Some sel'
    /\ select_value sel' = id v
    /\ notes page' !! "versionNote" = Some (note v).
Proof.
  destruct (selected_option_and_note_agree api_options v1_api_page "versionSelect"
              "versionNote" (mkSelect [] (-1)) "" eq_refl eq_refl eq_refl eq_refl eq_refl)
    as (page' & sel' & v & Hinit & Hsel & _ & _ & Hval & Hnote).
  exists page', sel', v. split; [exact Hinit|]. split; [exact Hsel|].
  split; [exact Hval|exact Hnote].
Defined.

(** With a page for every entry, the options are one per entry. *)
Lemma options_of_full_table key config :
  Forall (fun v => is_Some (page_href v key)) config ->
  omap (option_of key) config = map (fun v => (id v, label v)) config.
Proof.
  induction 1 as [|v config [h Hv] _ IH]; [done|].
  change (omap (option_of key) (v :: config))
    with (match option_of key v with
          | Some y => y :: omap (option_of key) config
          | None => omap (option_of key) config
          end).
  unfold option_of at 1. rewrite Hv. cbn [map]. by rewrite IH.
Qed.

(** X22: for a table whose entries have different ids and a page each for
    the page key, after the initializer ran on an empty [<select>], picking
    the option at index [i] assigns to [window.location.href] the page path
    stored for the [i]-th version of the table. *)
Theorem picking_an_option_opens_its_version (config : list Version) (o : Options)
    (page : Page) (selId : string) (sel : Select) (i : nat) (v : Version) :
  selectId o = Some selId ->
  selects page !! selId = Some sel ->
  options sel = [] ->
  Forall (fun v => is_Some (page_href v (pageKey o))) config ->
  NoDup (map id config) ->
  config !! i = Some v ->
  exists page',
    init_with config (Some o) page = inr page'
    /\ href_assigned (change config (pageKey o) selId i page') = pages v (pageKey o).
Proof.
  intros Hid Hsel Hempty Hfull Hnd Hv.
  destruct (init_with_appends config o page selId sel Hid Hsel)
    as (page' & sel' & Hinit & Hsel' & Hopts & _).
  exists page'. split; [exact Hinit|].
  rewrite Hempty, app_nil_l, (options_of_full_table _ _ Hfull) in Hopts.
  unfold change. rewrite Hsel'.
  assert (Hval : select_value (set_selectedIndex i sel') = id v).
  { unfold select_value, set_selectedIndex. cbn [options selectedIndex].
    rewrite Hopts, length_map.
    pose proof (lookup_lt_Some _ _ _ Hv) as Hlt.
    rewrite (bool_decide_eq_true_2 (i < length config)%nat) by done.
    rewrite bool_decide_eq_true_2 by lia. rewrite Nat2Z.id.
    rewrite list_lookup_fmap, Hv. reflexivity. }
  rewrite Hval. unfold on_change.
  assert (Hfind : list_find (fun w => id w = id v) config = Some (i, v)).
  { apply list_find_Some. split; [done|]. split; [done|].
    intros j w Hw Hlt Heq. apply NoDup_alt with (i := j) (j := i) (x := id v) in Hnd; [lia| |].
    - by rewrite list_lookup_fmap, Hw, <- Heq.
    - by rewrite list_lookup_fmap, Hv. }
  rewrite Hfind.
  rewrite Forall_forall in Hfull.
  destruct (Hfull v (list_elem_of_lookup_2 _ _ _ Hv)) as [h Hh]. rewrite Hh.
  cbn [href_assigned]. unfold page_href in Hh.
  destruct (pages v (pageKey o)) as [h'|]; [|done].
  destruct (String.eqb h' ""); [done|]. by injection Hh as ->.
Qed.


(** On the initialized page of the v1.0.0 API reference the first option
    opens the API reference of the main branch. *)
Lemma picking_an_option_opens_its_version_witness :
  exists page',
    init_with VERSION_CONFIG (Some api_options) v1_api_page = inr page'
    /\ href_assigned (change VERSION_CONFIG api "versionSelect" 0 page')
       = Some "index.html".
Proof.
  assert (Hnd : NoDup (map id VERSION_CONFIG)).
  { simpl. apply NoDup_cons. split.
    - intros Hin. apply list_elem_of_singleton in Hin. discriminate.
    - apply NoDup_singleton. }
  destruct (picking_an_option_opens_its_version VERSION_CONFIG api_options v1_api_page
              "versionSelect" (mkSelect [] (-1)) 0
              (mkVersion "main" "main (latest)"
                 "Tracking the latest code on the main branch."
                 (fun k => match k with
                           | api => Some "index.html"
                           | inspector => Some "inspector.html"
                           | examples => Some "example-mods.html"
                           end))
              eq_refl eq_refl eq_refl (version_config_has_pages api) Hnd eq_refl)
    as (page' & Hinit & Hnav).
  exists page'. split; [exact Hinit|exact Hnav].
Defined.

End MoreSelector.

(* ===================================================================== *)
(** * The loading pattern and JSON *)
(* ===================================================================== *)

Section Json.
Import Js.

Lemma serialise_arr items : serialise (VArr items) = serialise_items items [].
Proof. reflexivity. Qed.

Lemma serialise_obj props : serialise (VObj props) = serialise_props props [].
Proof. reflexivity. Qed.

(** Induction on values, with the hypothesis for every element of an
    array and every property value of an object. *)
Lemma Value_nested_ind (P : Value -> Prop) :
  P VUndefined -> P VNull -> (forall b, P (VBool b)) -> (forall n, P (VNum n)) ->
  P VNaN -> (forall s, P (VStr s)) -> (forall n, P (VBigInt n)) -> P VFunction ->
  (forall items, Forall P items -> P (VArr items)) ->
  (forall props, Forall (fun kv => P (snd kv)) props -> P (VObj props)) ->
  forall v, P v.
Proof.
  intros H1 H2 H3 H4 H5 H6 H7 H8 Harr Hobj. fix IH 1.
  intros [| |b|n| |s|n| |items|props];
    [exact H1|exact H2|apply H3|apply H4|exact H5|apply H6|apply H7|exact H8| |].
  - apply Harr. induction items as [|x l IHl]; constructor; [apply IH|apply IHl].
  - apply Hobj. induction props as [|[k x] l IHl]; constructor; [apply IH|apply IHl].
Qed.

Lemma serialise_items_clean l : forall acc,
  Forall json_clean l -> serialise_items l acc = Text (VArr (rev acc ++ l)).
Proof.
  induction l as [|x l IH]; intros acc Hl; simpl.
  - by rewrite app_nil_r.
  - apply Forall_cons in Hl as [Hx Hl]. unfold json_clean in Hx. rewrite Hx.
    rewrite IH by done. simpl. by rewrite <- app_assoc.
Qed.

Lemma serialise_props_clean l : forall acc,
  Forall (fun kv => json_clean (snd kv)) l ->
  serialise_props l acc = Text (VObj (rev acc ++ l)).
Proof.
  induction l as [|[k x] l IH]; intros acc Hl; simpl.
  - by rewrite app_nil_r.
  - apply Forall_cons in Hl as [Hx Hl]. unfold json_clean in Hx. simpl in Hx. rewrite Hx.
    rewrite IH by done. simpl. by rewrite <- app_assoc.
Qed.

Lemma serialise_items_result l : forall acc r,
  Forall (fun x => forall x', serialise x = Text x' -> json_clean x') l ->
  Forall json_clean acc ->
  serialise_items l acc = Text r ->
  exists l', r = VArr l' /\ Forall json_clean l'.
Proof.
  induction l as [|x l IH]; intros acc r Hl Hacc Hr; simpl in Hr.
  - injection Hr as <-. eexists. split; [done|]. by apply Forall_rev.
  - apply Forall_cons in Hl as [Hx Hl].
    destruct (serialise x) as [x'| |e] eqn:Hsx; [| |done].
    + eapply IH; [done| |exact Hr]. constructor; [by apply Hx|done].
    + eapply IH; [done| |exact Hr]. constructor; [done|done].
Qed.

Lemma serialise_props_result l : forall acc r,
  Forall (fun kv => forall x', serialise (snd kv) = Text x' -> json_clean x') l ->
  Forall (fun kv => json_clean (snd kv)) acc ->
  serialise_props l acc = Text r ->
  exists l', r = VObj l' /\ Forall (fun kv => json_clean (snd kv)) l'.
Proof.
  induction l as [|[k x] l IH]; intros acc r Hl Hacc Hr; simpl in Hr.
  - injection Hr as <-. eexists. split; [done|]. by apply Forall_rev.
  - apply Forall_cons in Hl as [Hx Hl]. simpl in Hx.
    destruct (serialise x) as [x'| |e] eqn:Hsx; [| |done].
    + eapply IH; [done| |exact Hr]. constructor; [by apply Hx|done].
    + eapply IH; [done|done|exact Hr].
Qed.

(** What the conversion yields is a value the conversion leaves alone. *)
Lemma serialise_clean v : forall v', serialise v = Text v' -> json_clean v'.
Proof.
  induction v as [| |b|n| |s|n| |items IH|props IH] using Value_nested_ind;
    intros v' Hv; try (simpl in Hv; by simplify_eq).
  - rewrite serialise_arr in Hv.
    destruct (serialise_items_result items [] v' IH (Forall_nil_2 _) Hv) as (l' & -> & Hl').
    unfold json_clean. rewrite serialise_arr. by rewrite serialise_items_clean.
  - rewrite serialise_obj in Hv.
    destruct (serialise_props_result props [] v' IH (Forall_nil_2 _) Hv) as (l' & -> & Hl').
    unfold json_clean. rewrite serialise_obj. by rewrite serialise_props_clean.
Qed.


(** X23: whatever [loadData] returned, the value the loading pattern
    leaves in memory is truthy and is one that [JSON.stringify] followed by
    [JSON.parse] gives back unchanged: loading it again yields the same
    value and logs no warning. *)
Theorem loaded_value_survives_a_round_trip (tag tag' : string) (raw : Value) :
  let m := fst (Api.load_mapping tag raw) in
  parse_stringify m = inr m
  /\ truthy m = true
  /\ Api.load_mapping tag' m = (m, []).
Proof.
  cbv zeta.
  assert (Hm : json_clean (fst (Api.load_mapping tag raw))
               /\ truthy (fst (Api.load_mapping tag raw)) = true).
  { unfold Api.load_mapping, parse_stringify.
    destruct (serialise raw) as [v| |e] eqn:Hraw; cbn [fst]; [|done|done].
    destruct (truthy v) eqn:Ht; [|done]. split; [|done]. by eapply serialise_clean. }
  destruct Hm as [Hclean Htruthy]. unfold json_clean in Hclean.
  unfold Api.load_mapping at 2 4, parse_stringify. rewrite Hclean, Htruthy. done.
Qed.

End Json.

(* ===================================================================== *)
(** * Items and durations in the sample mod *)
(* ===================================================================== *)

Section SampleItems.
Import SampleMod.

Ltac unfold_the_handlers :=
  unfold js_help, js_greet, js_roll, js_playtime, js_kit, js_tp, js_boom,
    js_particles, js_hand, js_top, js_heal_target, js_heal, js_gamemode,
    js_stack, js_near, js_time_set, js_time_add, js_actionbar, js_home_set,
    js_home_go, js_home_info, js_home_clear, js_warp_set, js_warp_go,
    js_warp_list, js_warp_remove, js_effect_add, js_effect_clear,
    js_weather_set, js_daily, kit, ret.

Lemma items_given_app u o1 o2 :
  items_given u (o1 ++ o2) = items_given u o1 ++ items_given u o2.
Proof. unfold items_given. apply omap_app. Qed.

Lemma items_given_map_none {A} u (f : A -> Effect) (l : list A) :
  (forall a, match f a with GiveItemStack _ _ _ => False | _ => True end) ->
  items_given u (map f l) = [].
Proof.
  intros Hf. induction l as [|a l IH]; [done|]. simpl.
  unfold items_given in *. simpl. specialize (Hf a). destruct (f a); try done.
Qed.

Lemma items_given_imap_none {A} u (f : nat -> A -> Effect) (l : list A) :
  (forall i a, match f i a with GiveItemStack _ _ _ => False | _ => True end) ->
  items_given u (imap f l) = [].
Proof.
  revert f. induction l as [|a l IH]; intros f Hf; [done|]. simpl.
  unfold items_given in *. simpl. pose proof (Hf O a) as H0. destruct (f O a); try done;
    apply IH; intros; apply Hf.
Qed.

(** X24: no command hands items to anyone but the player who runs it, and
    only [/js kit], [/js daily] and the standalone [/kit] hand out items at
    all. *)
Theorem items_go_to_the_sender_only (src : Source) (server : Server) (c : Command)
    (st : ModState) (u : string) :
  items_given u (effects (execute src server c st)) <> [] ->
  gives_items c = true
  /\ exists player, src_player src = Some player /\ uuid player = u.
Proof.
  intros Hitems.
  destruct c; simpl in *; revert Hitems; unfold_the_handlers; unfold broadcast;
    repeat case_match; simpl;
    rewrite ?items_given_app, ?(items_given_map_none u), ?(items_given_imap_none u);
    try done; simpl; repeat case_bool_decide; try done; intros _; split; try done;
    by eexists.
Qed.

Lemma items_go_to_the_sender_only_witness :
  gives_items Kit = true
  /\ exists player, src_player as_steve = Some player /\ uuid player = "uuid-steve".
Proof.
  apply (items_go_to_the_sender_only as_steve quiet_server Kit initial_state "uuid-steve").
  vm_compute. discriminate.
Defined.

(** X25: [formatDurationMs] shows the whole seconds of a duration, never
    a negative number and never 60 seconds or more: as [m] minutes and [s]
    seconds when there is at least a minute, as seconds below, and as "0s" for
    a negative duration. *)
Theorem formatDurationMs_shows_whole_seconds (ms : Z) :
  exists m s,
    0 <= m /\ 0 <= s < 60
    /\ 60 * m + s = Z.max 0 (ms / 1000)
    /\ formatDurationMs ms
       = if bool_decide (0 < m)
         then pretty m +:+ "m " +:+ pretty s +:+ "s"
         else pretty s +:+ "s".
Proof.
  destruct (decide (0 <= ms)) as [Hms|Hneg].
  - assert (Hsec : 0 <= ms / 1000) by (apply Z.div_pos; lia).
    pose proof (Z.div_mod (ms / 1000) 60 ltac:(lia)) as Hdm.
    pose proof (Z.mod_pos_bound (ms / 1000) 60 ltac:(lia)) as Hmb.
    pose proof (Z.div_pos (ms / 1000) 60 Hsec ltac:(lia)) as Hmin.
    exists (ms / 1000 / 60), ((ms / 1000) `mod` 60).
    split; [done|]. split; [done|]. split; [lia|].
    rewrite (formatDurationMs_shape ms Hms).
    case_bool_decide as H60; case_bool_decide as Hm; try reflexivity.
    + exfalso. lia.
    + exfalso. lia.
    + rewrite Z.mod_small by lia. reflexivity.
  - assert (Hsec : ms / 1000 < 0) by (apply Z.div_lt_upper_bound; lia).
    exists 0, 0. split; [done|]. split; [lia|]. split; [lia|].
    unfold formatDurationMs. rewrite Z.max_l by lia. reflexivity.
Qed.

End SampleItems.
